(** * The chat client: pages, request helpers and what they send

    A shallow embedding of the React front end of the chatbot:

    - [pages/Login.jsx]   ([Login.login]),
    - [pages/Signup.jsx]  ([Signup.signup]),
    - [pages/Chat.jsx]    ([Chat.send]),
    - [api/chatApi.js] and the request helpers that follow it
      ([chatApi.sendMessage], [chatApi.getHistory], [chatApi.loginUser],
      [chatApi.signupUser]).

    The browser is a record [World]: the [localStorage] of the origin and
    the ordered list of the effects the pages have had on the outside
    (requests handed to axios, alerts, navigations).  An [async] function
    with its [try]/[catch] is a computation in the monad [M], which
    threads the [useState] cells of its component and the [World], and
    ends normally or by a throw.  The chat page, whose button starts a
    send without waiting for the one before, is also given with its
    sends in flight ([Chat.step]). *)

From Stdlib Require Import String Ascii List ZArith Lia Bool.
From stdpp Require Import base option gmap strings list.
Import ListNotations.

Local Open Scope string_scope.
Local Open Scope list_scope.
Local Set Warnings "-register-all".

(** ** JavaScript values *)

Module JS.

(** What a decoded response body and a React state cell can hold.  A
    number is kept by the text [Number.prototype.toString] gives for it,
    the one thing the pages can observe of a number. *)
Inductive value : Type :=
| VUndefined
| VNull
| VBool (b : bool)
| VNum (shown : string)
| VStr (s : string)
| VArr (items : list value)
| VObj (fields : list (string * value)).

(** What a throw carries. *)
Inductive error : Type :=
| TypeError
| NetworkError
| BadStatus (status : Z) (body : value).

Inductive completion (A : Type) : Type :=
| Normal (a : A)
| Throw (e : error).
Arguments Normal {A} a.
Arguments Throw {A} e.

(** [Array.prototype.join] with separator [sep], the elements already
    converted. *)
Fixpoint join (sep : string) (parts : list string) : string :=
  match parts with
  | [] => ""
  | [p] => p
  | p :: rest => p ++ sep ++ join sep rest
  end.

(** Whether an object has a field called [name] of its own. *)
Fixpoint has_own (fields : list (string * value)) (name : string) : bool :=
  match fields with
  | [] => false
  | (k, _) :: rest => String.eqb k name || has_own rest name
  end.

(** [String(v)], the conversion [localStorage.setItem] and
    [URLSearchParams] apply to a value.  An object of a decoded body
    has no function among its fields: one with a field [toString] of
    its own hides the [toString] every object inherits and cannot be
    converted, which is a TypeError; any other object is
    [[object Object]].  A list is its elements converted and joined by
    commas, [undefined] and [null] among them as the empty string; it
    cannot be converted when one of them cannot. *)
Fixpoint ToString (v : value) : completion string :=
  match v with
  | VUndefined => Normal "undefined"
  | VNull => Normal "null"
  | VBool true => Normal "true"
  | VBool false => Normal "false"
  | VNum shown => Normal shown
  | VStr s => Normal s
  | VArr items =>
      match
        (fix each (l : list value) : completion (list string) :=
           match l with
           | [] => Normal []
           | x :: l' =>
               match
                 match x with
                 | VUndefined | VNull => Normal ""
                 | _ => ToString x
                 end
               with
               | Normal part =>
                   match each l' with
                   | Normal parts => Normal (part :: parts)
                   | Throw e => Throw e
                   end
               | Throw e => Throw e
               end
           end) items
      with
      | Normal parts => Normal (join "," parts)
      | Throw e => Throw e
      end
  | VObj fields =>
      if has_own fields "toString" then Throw TypeError
      else Normal "[object Object]"
  end.

(** The first binding of [name] in the fields of an object. *)
Fixpoint own_property (fields : list (string * value)) (name : string)
  : value :=
  match fields with
  | [] => VUndefined
  | (k, v) :: rest => if String.eqb k name then v else own_property rest name
  end.

(** [v.name], for a [name] that no built-in prototype defines (the pages
    read [access_token] and [bot_reply]): reading off [undefined] or
    [null] throws a TypeError, an object gives its own property, any
    other value gives [undefined]. *)
Definition Get (v : value) (name : string) : completion value :=
  match v with
  | VUndefined | VNull => Throw TypeError
  | VObj fields => Normal (own_property fields name)
  | _ => Normal VUndefined
  end.

End JS.

Import JS.

(** ** URLs and form-encoded text *)

Module URL.

(** How a URL and a form-encoded text are read on the way to the
    server, after the URL standard: the part of a URL that is its
    query, and the parser and the serializer of
    [application/x-www-form-urlencoded].  Strings are strings of
    bytes. *)

(** The text before the first [sep], and the text after it when there
    is one. *)
Fixpoint cut (sep : ascii) (s : string) : string * option string :=
  match s with
  | EmptyString => ("", None)
  | String c rest =>
      if Ascii.eqb c sep then ("", Some rest)
      else let (before, after) := cut sep rest in (String c before, after)
  end.

(** The pieces of [s] between the occurrences of [sep]. *)
Fixpoint split (sep : ascii) (s : string) : list string :=
  match s with
  | EmptyString => [""]
  | String c rest =>
      if Ascii.eqb c sep then "" :: split sep rest
      else match split sep rest with
           | piece :: pieces => String c piece :: pieces
           | [] => [String c ""]
           end
  end.

Definition TAB : ascii := "009"%char.
Definition LF : ascii := "010"%char.
Definition CR : ascii := "013"%char.

(** A control byte of the first thirty-two, or a space. *)
Definition blank (c : ascii) : bool := (nat_of_ascii c <=? 32)%nat.

Definition tab_or_newline (c : ascii) : bool :=
  Ascii.eqb c TAB || Ascii.eqb c LF || Ascii.eqb c CR.

(** What the URL parser of the transport does to its input before it
    reads it: the blanks at both ends are dropped, then every tab and
    newline wherever it stands. *)
Fixpoint strip_leading (s : string) : string :=
  match s with
  | EmptyString => ""
  | String c rest => if blank c then strip_leading rest else s
  end.

Fixpoint strip_trailing (s : string) : string :=
  match s with
  | EmptyString => ""
  | String c rest =>
      match strip_trailing rest with
      | EmptyString => if blank c then "" else String c ""
      | kept => String c kept
      end
  end.

Fixpoint without_breaks (s : string) : string :=
  match s with
  | EmptyString => ""
  | String c rest =>
      if tab_or_newline c then without_breaks rest
      else String c (without_breaks rest)
  end.

Definition trimmed (url : string) : string :=
  without_breaks (strip_trailing (strip_leading url)).

(** The query of a trimmed URL: what stands between the first [?] and
    the fragment.  The parser writes some of its bytes as escapes (a
    space, a quote, what is not ASCII); the parser of the form reads
    those escapes back as the bytes they stand for, so the query is
    kept here as it was typed. *)
Definition query_in (t : string) : string :=
  match cut "?" (fst (cut "#" t)) with
  | (_, Some q) => q
  | (_, None) => ""
  end.

(** The path of a trimmed URL: what stands before the query and the
    fragment. *)
Definition path_in (t : string) : string :=
  fst (cut "?" (fst (cut "#" t))).

(** The query and the path of a URL as a page hands it to axios. *)
Definition query (url : string) : string := query_in (trimmed url).

Definition path (url : string) : string := path_in (trimmed url).

(** The value of a hexadecimal digit, of either case. *)
Definition hex_value (c : ascii) : option nat :=
  let n := nat_of_ascii c in
  if ((48 <=? n) && (n <=? 57))%nat then Some (n - 48)
  else if ((65 <=? n) && (n <=? 70))%nat then Some (n - 55)
  else if ((97 <=? n) && (n <=? 102))%nat then Some (n - 87)
  else None.

(** The upper-case hexadecimal digit of [n < 16]. *)
Definition hex_digit (n : nat) : ascii :=
  ascii_of_nat (if (n <? 10)%nat then 48 + n else 55 + n).

(** The decoding of a name or a value of a form-encoded text: [+] is a
    space, [%] with two hexadecimal digits is the byte they write, and
    any other character is itself.  The result is the bytes; a reader
    that takes them for UTF-8 puts a replacement character where they
    are not, which is not modelled: nothing below rests on what an
    escape that was typed decodes to. *)
Fixpoint decode (s : string) : string :=
  match s with
  | EmptyString => ""
  | String c rest =>
      if Ascii.eqb c "+" then String " " (decode rest)
      else if Ascii.eqb c "%" then
        match rest with
        | String h (String l rest') =>
            match hex_value h, hex_value l with
            | Some a, Some b => String (ascii_of_nat (16 * a + b)) (decode rest')
            | _, _ => String c (decode rest)
            end
        | _ => String c (decode rest)
        end
      else String c (decode rest)
  end.

(** The bytes the serializer leaves as they are: the ASCII letters and
    digits and [*], [-], [.], [_]. *)
Definition unreserved (c : ascii) : bool :=
  let n := nat_of_ascii c in
  (((48 <=? n) && (n <=? 57)) || ((65 <=? n) && (n <=? 90))
   || ((97 <=? n) && (n <=? 122))
   || (n =? 42) || (n =? 45) || (n =? 46) || (n =? 95))%nat.

(** The encoding of a name or a value: a space is [+], any other byte
    that is not left as it is becomes [%] and its two digits. *)
Fixpoint encode (s : string) : string :=
  match s with
  | EmptyString => ""
  | String c rest =>
      if Ascii.eqb c " " then String "+" (encode rest)
      else if unreserved c then String c (encode rest)
      else let n := nat_of_ascii c in
           String "%" (String (hex_digit (n / 16))
                         (String (hex_digit (n mod 16)) (encode rest)))
  end.

(** One piece of a form-encoded text: the name stands before the first
    [=], the value after it; a piece without [=] has the empty
    value. *)
Definition parse_pair (piece : string) : string * string :=
  match cut "=" piece with
  | (name, Some val) => (decode name, decode val)
  | (name, None) => (decode name, "")
  end.

(** The parser: the pieces between the [&], the empty ones skipped. *)
Definition parse (text : string) : list (string * string) :=
  map parse_pair
      (List.filter (fun piece => negb (String.eqb piece ""))
                   (split "&" text)).

(** The serializer, what [URLSearchParams.prototype.toString] gives
    and axios sends as the body. *)
Fixpoint serialize (pairs : list (string * string)) : string :=
  match pairs with
  | [] => ""
  | [(name, val)] => encode name ++ "=" ++ encode val
  | (name, val) :: rest =>
      encode name ++ "=" ++ encode val ++ "&" ++ serialize rest
  end.

(** [c] does not occur in [s]. *)
Fixpoint absent (c : ascii) (s : string) : bool :=
  match s with
  | EmptyString => true
  | String c' rest => negb (Ascii.eqb c' c) && absent c rest
  end.


End URL.

(** ** Requests *)

Inductive Method : Type := GET | POST.

(** A [URLSearchParams] object: its list of name-value pairs. *)
Definition URLSearchParams : Type := list (string * string).

Definition URLSearchParams_new : URLSearchParams := [].

Definition URLSearchParams_append
    (form : URLSearchParams) (name val : string) : URLSearchParams :=
  form ++ [(name, val)].

(** The [data] argument of an axios call.  axios sends a
    [URLSearchParams] form-encoded and a plain object as JSON. *)
Inductive Body : Type :=
| NoBody
| FormBody (form : URLSearchParams)
| JsonBody (payload : value).

(** What a page hands to axios: [api.post(url, data, { params })]. *)
Record HttpRequest : Type := mkRequest {
  method : Method;
  url : string;
  body : Body;
  params : list (string * value)
}.

Record Response : Type := mkResponse {
  status : Z;
  data : value
}.

(** ** The browser *)

Abbreviation Storage := (gmap string string).

Inductive Effect : Type :=
| Requested (r : HttpRequest)
| Alert (message : string)
| Navigate (to : string).

Record World : Type := mkWorld {
  localStorage : Storage;
  effects : list Effect
}.

(** The navigations, requests and alerts among the effects, oldest
    first. *)
Definition navigations (w : World) : list string :=
  omap (fun e => match e with Navigate to => Some to | _ => None end)
       (effects w).

Definition requests (w : World) : list HttpRequest :=
  omap (fun e => match e with Requested r => Some r | _ => None end)
       (effects w).

Definition alerts (w : World) : list string :=
  omap (fun e => match e with Alert m => Some m | _ => None end)
       (effects w).

(** The axios instance the pages import ([services/api], [api/axios]).
    Its module is not among the sources, so it is a parameter:
    for a request and the world it settles in (an interceptor may read
    the token in the storage, the server may remember what was asked
    before), it settles the promise, with a response or a rejection, and
    leaves a storage (an interceptor may write it). *)
Record Axios : Type := mkAxios {
  settle : HttpRequest -> World -> completion Response * Storage
}.

(** ** Computations *)

(** An [async] function of a component whose [useState] cells are a
    [σ]. *)
Definition M (σ A : Type) : Type := σ -> World -> completion A * σ * World.

Definition ret {σ A} (a : A) : M σ A := fun s w => (Normal a, s, w).

Definition throw {σ A} (e : error) : M σ A := fun s w => (Throw e, s, w).

Definition bind {σ A B} (c : M σ A) (k : A -> M σ B) : M σ B :=
  fun s w =>
    match c s w with
    | (Normal a, s', w') => k a s' w'
    | (Throw e, s', w') => (Throw e, s', w')
    end.

(** [try { c } catch { handler }] *)
Definition try_catch {σ A} (c : M σ A) (handler : M σ A) : M σ A :=
  fun s w =>
    match c s w with
    | (Normal a, s', w') => (Normal a, s', w')
    | (Throw _, s', w') => handler s' w'
    end.

(** A completion as a computation. *)
Definition lift {σ A} (r : completion A) : M σ A := fun s w => (r, s, w).

(** The cells as the component function last saw them. *)
Definition cells {σ} : M σ σ := fun s w => (Normal s, s, w).

(** A setter returned by [useState]. *)
Definition setState {σ} (setter : σ -> σ) : M σ unit :=
  fun s w => (Normal tt, setter s, w).

Declare Scope js_scope.
Delimit Scope js_scope with js.
Notation "x <- c ;; k" := (bind c (fun x => k))
  (at level 100, c at next level, right associativity) : js_scope.
Notation "c ;; k" := (bind c (fun _ => k))
  (at level 100, right associativity) : js_scope.
Local Open Scope js_scope.

Definition emit {σ} (e : Effect) : M σ unit :=
  fun s w =>
    (Normal tt, s,
     {| localStorage := localStorage w; effects := effects w ++ [e] |}).

(** [alert(message)] *)
Definition alert {σ} (message : string) : M σ unit := emit (Alert message).

(** [nav(to)], the function [useNavigate()] returns. *)
Definition nav {σ} (to : string) : M σ unit := emit (Navigate to).

(** [localStorage.setItem(key, v)]: the value is converted to a string
    and stored; when the conversion throws, nothing is stored and the
    throw goes on to the caller. *)
Definition localStorage_setItem {σ} (key : string) (v : value) : M σ unit :=
  fun s w =>
    match ToString v with
    | Normal text =>
        (Normal tt, s,
         {| localStorage := <[key := text]> (localStorage w);
            effects := effects w |})
    | Throw e => (Throw e, s, w)
    end.

(** [await api.request(r)]: the request is handed over, then the promise
    settles; a rejection resumes the caller with a throw. *)
Definition request {σ} (API : Axios) (r : HttpRequest) : M σ Response :=
  fun s w =>
    let (outcome, store) := settle API r w in
    (outcome, s,
     {| localStorage := store; effects := effects w ++ [Requested r] |}).

(** [api.post(url, data, { params })], [data] and [params] optional. *)
Definition post {σ} (API : Axios) (url : string) (data : Body)
    (params : list (string * value)) : M σ Response :=
  request API {| method := POST; url := url; body := data; params := params |}.

(** [api.get(url)] *)
Definition get_ {σ} (API : Axios) (url : string) : M σ Response :=
  request API {| method := GET; url := url; body := NoBody; params := [] |}.

(** ** pages/Login.jsx *)

Module Login.

(** The two [useState] cells of the component. *)
Record State : Type := mkState {
  username : string;
  password : string
}.

Definition initial : State := {| username := ""; password := "" |}.

Definition setUsername (v : string) (s : State) : State :=
  {| username := v; password := password s |}.

Definition setPassword (v : string) (s : State) : State :=
  {| username := username s; password := v |}.

Section WithAxios.
Context (API : Axios).

Definition login : M State unit :=
  s <- cells ;;
  try_catch
    (let form := URLSearchParams_new in
     let form := URLSearchParams_append form "username" (username s) in
     let form := URLSearchParams_append form "password" (password s) in
     res <- post API "/login" (FormBody form) [] ;;
     access_token <- lift (JS.Get (data res) "access_token") ;;
     localStorage_setItem "token" access_token ;;
     nav "/chat")
    (alert "Login failed").

End WithAxios.

(** The request [login] makes. *)
Definition login_request (s : State) : HttpRequest :=
  {| method := POST; url := "/login";
     body := FormBody [("username", username s); ("password", password s)];
     params := [] |}.

End Login.

(** ** pages/Signup.jsx *)

Module Signup.

Record State : Type := mkState {
  username : string;
  password : string
}.

Definition initial : State := {| username := ""; password := "" |}.

Definition setUsername (v : string) (s : State) : State :=
  {| username := v; password := password s |}.

Definition setPassword (v : string) (s : State) : State :=
  {| username := username s; password := v |}.

(** The template literal of [signup]. *)
Definition signup_url (s : State) : string :=
  "/signup?username=" ++ username s ++ "&password=" ++ password s.

Section WithAxios.
Context (API : Axios).

Definition signup : M State unit :=
  s <- cells ;;
  try_catch
    (post API (signup_url s) NoBody [] ;;
     alert "Signup success" ;;
     nav "/")
    (alert "Signup failed").

End WithAxios.

Definition signup_request (s : State) : HttpRequest :=
  {| method := POST; url := signup_url s; body := NoBody; params := [] |}.

End Signup.

(** ** pages/Chat.jsx *)

Module Chat.

Record State : Type := mkState {
  msg : string;
  reply : value
}.

Definition initial : State := {| msg := ""; reply := VStr "" |}.

Definition setMsg (v : string) (c : State) : State :=
  {| msg := v; reply := reply c |}.

Definition setReply (v : value) (c : State) : State :=
  {| msg := msg c; reply := v |}.

Section WithAxios.
Context (API : Axios).

Definition send : M State unit :=
  c <- cells ;;
  res <- post API "/chat" (JsonBody (VObj [("message", VStr (msg c))])) [] ;;
  bot_reply <- lift (JS.Get (data res) "bot_reply") ;;
  setState (setReply bot_reply).

(** What the specification calls sendMessage(content), as it is done
    on the page, which has no function of that name: the input's
    [onChange] with the text, then the button's [onClick]. *)
Definition submit (content : string) : M State unit :=
  setState (setMsg content) ;;
  send.

(** Messages sent one after the other, each awaited before the
    next. *)
Fixpoint submitAll (contents : list string) : M State unit :=
  match contents with
  | [] => ret tt
  | content :: rest => submit content ;; submitAll rest
  end.

(** What happens on the page when every send has settled before the
    next thing happens and the page stays mounted (the rejection of a
    [send] nobody catches included).  Sends that overlap are further
    down, with [Step]. *)
Inductive Event : Type :=
| Typed (text : string)
| Clicked.

Definition handle (e : Event) (c : State) (w : World) : State * World :=
  match e with
  | Typed text => (setMsg text c, w)
  | Clicked => let '(_, c', w') := send c w in (c', w')
  end.

Fixpoint run (events : list Event) (c : State) (w : World)
  : State * World :=
  match events with
  | [] => (c, w)
  | e :: rest => let (c', w') := handle e c w in run rest c' w'
  end.

End WithAxios.

(** The request that carries the message [m] to [/chat]. *)
Definition chat_request (m : string) : HttpRequest :=
  {| method := POST; url := "/chat";
     body := JsonBody (VObj [("message", VStr m)]);
     params := [] |}.

Definition send_request (c : State) : HttpRequest := chat_request (msg c).

(** The world after the request of [send] was handed to axios, which
    left the storage [store]. *)
Definition sent (c : State) (w : World) (store : Storage) : World :=
  {| localStorage := store;
     effects := effects w ++ [Requested (send_request c)] |}.

(** Whether React can show [v] as a child of the paragraph: a text or
    a number, nothing for a boolean, [null] and [undefined], a list of
    such; an object it cannot show, and the render throws. *)
Fixpoint renderable (v : value) : bool :=
  match v with
  | VObj _ => false
  | VArr items =>
      (fix all (l : list value) : bool :=
         match l with
         | [] => true
         | x :: l' => renderable x && all l'
         end) items
  | _ => true
  end.

(** The page with its sends in flight.  [onClick={send}] awaits
    nothing and the button is never disabled, so a send can start
    while others wait for their answers, and the answers come in any
    order.  [view] is the cells of the component while it is mounted;
    a render that throws unmounts it.  [in_flight] is the requests
    whose [await] has not resumed, oldest first. *)
Record Page : Type := mkPage {
  view : option State;
  in_flight : list HttpRequest
}.

Definition opened : Page := {| view := Some initial; in_flight := [] |}.

Inductive Step : Type :=
| Types (text : string)
| Presses
| Arrives (i : nat).

(** [setReply(v)] and the render that follows: an unmounted component
    stays so, a mounted one takes the reply and is unmounted when it
    cannot show it. *)
Definition shown (v : value) (cells : option State) : option State :=
  match cells with
  | Some c => if renderable v then Some (setReply v c) else None
  | None => None
  end.

Section Overlapping.
Context (API : Axios).

(** One step of the page.  Typing sets the text.  A press of the
    button runs [send] up to its [await]: the request, with the text of
    the moment, is handed to axios.  The arrival of the answer to the
    [i]-th request in flight runs the rest of that [send]: a rejection
    or a body without data ends it with a throw nobody catches, anything
    else goes to [setReply].  An unmounted page has no input and no
    button. *)
Definition step (st : Step) (p : Page) (w : World) : Page * World :=
  match st with
  | Types text =>
      ({| view := option_map (setMsg text) (view p);
          in_flight := in_flight p |}, w)
  | Presses =>
      match view p with
      | Some c =>
          ({| view := Some c;
              in_flight := in_flight p ++ [send_request c] |},
           {| localStorage := localStorage w;
              effects := effects w ++ [Requested (send_request c)] |})
      | None => (p, w)
      end
  | Arrives i =>
      match nth_error (in_flight p) i with
      | None => (p, w)
      | Some r =>
          let (outcome, store) := settle API r w in
          let w' := {| localStorage := store; effects := effects w |} in
          let rest := firstn i (in_flight p) ++ skipn (S i) (in_flight p) in
          match outcome with
          | Normal res =>
              match JS.Get (data res) "bot_reply" with
              | Normal v =>
                  ({| view := shown v (view p); in_flight := rest |}, w')
              | Throw _ => ({| view := view p; in_flight := rest |}, w')
              end
          | Throw _ => ({| view := view p; in_flight := rest |}, w')
          end
      end
  end.

Fixpoint play (steps : list Step) (p : Page) (w : World) : Page * World :=
  match steps with
  | [] => (p, w)
  | st :: rest => let (p', w') := step st p w in play rest p' w'
  end.



End Overlapping.

(** The text in the input after the events, [text] being in it
    before: the last one typed. *)
Fixpoint input_text (events : list Event) (text : string) : string :=
  match events with
  | [] => text
  | Typed t :: rest => input_text rest t
  | Clicked :: rest => input_text rest text
  end.

(** The texts that were in the input at each click, oldest first. *)
Fixpoint clicked_texts (events : list Event) (text : string) : list string :=
  match events with
  | [] => []
  | Typed t :: rest => clicked_texts rest t
  | Clicked :: rest => text :: clicked_texts rest text
  end.

End Chat.

(** ** api/chatApi.js and the helpers that follow it *)

Module chatApi.

Section WithAxios.
Context {σ : Type} (api : Axios).

Definition sendMessage (message : value) : M σ Response :=
  post api "/chat" (JsonBody (VObj [("message", message)])) [].

Definition getHistory : M σ Response :=
  get_ api "/chat/history".

(** [new URLSearchParams(data)] for a plain object [data]: one pair
    per field, in the order the object lists them, the value converted
    to a string; the constructor throws when a conversion does. *)
Fixpoint URLSearchParams_of (data : list (string * value))
  : completion URLSearchParams :=
  match data with
  | [] => Normal []
  | (name, v) :: rest =>
      match ToString v with
      | Normal text =>
          match URLSearchParams_of rest with
          | Normal form => Normal ((name, text) :: form)
          | Throw e => Throw e
          end
      | Throw e => Throw e
      end
  end.

(** The form is built before [api.post] is called. *)
Definition loginUser (data : list (string * value)) : M σ Response :=
  form <- lift (URLSearchParams_of data) ;;
  post api "/login" (FormBody form) [].

Definition signupUser (data : list (string * value)) : M σ Response :=
  post api "/signup" NoBody data.

End WithAxios.

End chatApi.

(** ** Answers of odd shapes *)

(** The value [v] can be read but has no [name] to give: it is an
    object without that field, or it is no object (a text, a number, a
    list). *)
Definition lacks (name : string) (v : value) : Prop :=
  match v with
  | VObj fields => own_property fields name = VUndefined
  | VNull | VUndefined => False
  | _ => True
  end.

(** ** App.jsx *)

Module App.

(** The elements the routes show. *)
Inductive Page : Type := LoginPage | SignupPage | ChatPage.

(** The [Route]s inside [Routes], each with its [path] and its
    [element], in the order they are written. *)
Definition routes : list (string * Page) :=
  [("/", LoginPage); ("/signup", SignupPage); ("/chat", ChatPage)].

(** The element of the first route whose path is [pathname], letter
    for letter. *)
Fixpoint element_in (table : list (string * Page)) (pathname : string)
  : option Page :=
  match table with
  | [] => None
  | (path, page) :: rest =>
      if String.eqb path pathname then Some page else element_in rest pathname
  end.

Definition element (pathname : string) : option Page :=
  element_in routes pathname.

End App.

(** ** The conversation and the dispatcher of the specification *)

(** Modelled from the spec: the Message of its data model (section 3),
    a role and a content; no type of the sources stands for it.  The
    time a message was sent at is left out. *)
Inductive Role : Type := user | bot.

Record Message : Type := mkMessage {
  role : Role;
  content : string
}.

(** The roles of [n] exchanges: user, bot, user, bot, ... *)
Fixpoint alternating (n : nat) : list Role :=
  match n with
  | 0 => []
  | S n' => user :: bot :: alternating n'
  end.

Module Dispatcher.

(** Modelled from the spec: the Session of section 3. *)
Record Session : Type := mkSession {
  token : string;
  issuedAt : Z
}.

(** Modelled from the spec: the three encodings of section 4.2 that
    the remote endpoints ask for. *)
Inductive Encoding : Type :=
| FormEncoded
| QueryParameters
| StructuredBody.

(** Modelled from the spec: the RequestSpec of section 4.2: method,
    path, encoding, what is to be encoded, and the [authorized] flag. *)
Record RequestSpec : Type := mkSpec {
  spec_method : Method;
  spec_path : string;
  encoding : Encoding;
  payload : list (string * string);
  authorized : bool
}.

(** Modelled from the spec: the DispatchError of sections 4.2 and 7. *)
Inductive DispatchError : Type :=
| Unauthenticated
| Network
| Remote (status : Z) (body : value).

(** Modelled from the spec: what the dispatcher gives the transport,
    the request and the bearer credential attached to it, and what the
    transport gives back, no response or a status and a body. *)
Record Outgoing : Type := mkOutgoing {
  spec : RequestSpec;
  bearer : option string
}.

Inductive Wire : Type :=
| NoResponse
| Answer (status : Z) (body : value).

(** Modelled from the spec: the client, which is the SessionStore of
    section 4.1 and, for the count of section 8, the calls the transport
    has received, oldest first. *)
Record Client : Type := mkClient {
  session : option Session;
  calls : list Outgoing
}.

Module SessionStore.

(** Modelled from the spec: SessionStore.get, set and clear of
    section 4.1. *)
Definition get (c : Client) : option Session := session c.

Definition set (s : Session) (c : Client) : Client :=
  {| session := Some s; calls := calls c |}.

Definition clear (c : Client) : Client :=
  {| session := None; calls := calls c |}.

End SessionStore.

Section WithTransport.
Context (transport : Outgoing -> Wire).
Context (auth_failure success : Z -> bool).

(** Modelled from the spec: the network call of section 4.2 and the
    reading of its answer. *)
Definition call (out : Outgoing) (c : Client)
  : (value + DispatchError) * Client :=
  let c := {| session := session c; calls := calls c ++ [out] |} in
  match transport out with
  | NoResponse => (inr Network, c)
  | Answer status body =>
      if auth_failure status then
        (inr Unauthenticated, SessionStore.clear c)
      else if success status then (inl body, c)
      else (inr (Remote status body), c)
  end.

(** Modelled from the spec: RequestDispatcher.send of section 4.2,
    which is not among the sources (the axios instance of
    [services/api] stands where it would).  An authorized request
    without a session fails before any call; with a session it
    carries the token as its bearer credential.  No response is a
    Network error; a status of authorization failure clears the
    store and is Unauthenticated; any other status that is not a
    success is Remote; a success gives the decoded body. *)
Definition send (r : RequestSpec) (c : Client)
  : (value + DispatchError) * Client :=
  if authorized r then
    match SessionStore.get c with
    | None => (inr Unauthenticated, c)
    | Some s => call {| spec := r; bearer := Some (token s) |} c
    end
  else call {| spec := r; bearer := None |} c.

End WithTransport.

End Dispatcher.

(** ** Browsers and servers to try the pages on *)

(** An axios instance that answers the [n]-th request it is handed with
    the [n]-th entry of a script, fails with a network error once the
    script is over, and leaves the storage alone. *)
Definition scripted (answers : list (completion Response)) : Axios :=
  {| settle := fun _ w =>
       (nth (length (requests w)) answers (Throw NetworkError),
        localStorage w) |}.

Definition empty_world : World := {| localStorage := ∅; effects := [] |}.

(** A browser in which somebody has logged in before. *)
Definition logged_in_world : World :=
  {| localStorage := {["token" := "old"]}; effects := [] |}.

(** A server that greets, three times. *)
Definition greeter : Axios :=
  scripted
    [Normal {| status := 200; data := VObj [("bot_reply", VStr "hello")] |};
     Normal {| status := 200; data := VObj [("bot_reply", VStr "hello")] |};
     Normal {| status := 200; data := VObj [("bot_reply", VStr "hello")] |}].

(** A server nobody reaches. *)
Definition unreachable : Axios := scripted [].

(** A server that answers twice and is then out of reach. *)
Definition two_answers : Axios :=
  scripted
    [Normal {| status := 200; data := VObj [("bot_reply", VStr "one")] |};
     Normal {| status := 200; data := VObj [("bot_reply", VStr "two")] |}].

(** A server that logs in twice, with a new token each time. *)
Definition two_logins : Axios :=
  scripted
    [Normal {| status := 200; data := VObj [("access_token", VStr "first")] |};
     Normal {| status := 200; data := VObj [("access_token", VStr "second")] |}].

(** A server that answers every message with that message after
    [re: ], and leaves the storage alone. *)
Definition echo : Axios :=
  {| settle := fun r w =>
       (match body r with
        | JsonBody (VObj [(_, VStr m)]) =>
            Normal {| status := 200;
                      data := VObj [("bot_reply", VStr ("re: " ++ m))] |}
        | _ => Throw NetworkError
        end,
        localStorage w) |}.

(** A transport that refuses every token, the statuses read the usual
    way, and the request of a chat message as the dispatcher is given
    it. *)
Definition refusing : Dispatcher.Outgoing -> Dispatcher.Wire :=
  fun _ => Dispatcher.Answer 401 VNull.

Definition is_401 (status : Z) : bool := (status =? 401)%Z.

Definition is_2xx (status : Z) : bool :=
  ((200 <=? status) && (status <? 300))%Z.

Definition chat_spec : Dispatcher.RequestSpec :=
  {| Dispatcher.spec_method := POST;
     Dispatcher.spec_path := "/chat";
     Dispatcher.encoding := Dispatcher.StructuredBody;
     Dispatcher.payload := [("message", "hi")];
     Dispatcher.authorized := true |}.

Definition no_session : Dispatcher.Client :=
  {| Dispatcher.session := None; Dispatcher.calls := [] |}.

Definition stale_session : Dispatcher.Client :=
  {| Dispatcher.session :=
       Some {| Dispatcher.token := "tok123"; Dispatcher.issuedAt := 0 |};
     Dispatcher.calls := [] |}.

(** * What the pages do to the browser *)

(** Unfolds a page function down to the call of [settle]. *)
Ltac run_page :=
  unfold Login.login, Signup.signup, Chat.send, try_catch, bind, cells, post,
    get_, request, lift, localStorage_setItem, nav, alert, emit, setState,
    URLSearchParams_append, URLSearchParams_new;
  simpl.

(** Reads the requests, navigations and alerts off a grown list of
    effects. *)
Ltac read_effects :=
  unfold requests, navigations, alerts; simpl;
  rewrite ?omap_app; simpl; rewrite ?app_nil_r; simpl.

Module LoginFacts.
Import Login.

(** C1.  When the call to [/login] resolves, the response data has an
    [access_token] and that token can be written as a string, [login]
    ends normally, the storage is the one the call left with the token
    put, as a string, under the key [token] (no other key is written),
    and the page moves on to [/chat].  A token that is a string, as the
    endpoint gives it, is stored as it is. *)
Theorem login_success_stores_token
    (API : Axios) (s : State) (w : World)
    (res : Response) (store : Storage) (access_token : value)
    (text : string) :
  settle API (login_request s) w = (Normal res, store) ->
  JS.Get (data res) "access_token" = Normal access_token ->
  ToString access_token = Normal text ->
  exists w',
    login API s w = (Normal tt, s, w') /\
    localStorage w' = <["token" := text]> store /\
    localStorage w' !! "token" = Some text /\
    (forall tok : string,
        access_token = VStr tok -> localStorage w' !! "token" = Some tok) /\
    navigations w' = navigations w ++ ["/chat"].
Proof.
  intros Hsettle Htok Htext.
  run_page. unfold login_request in Hsettle; simpl in Hsettle.
  rewrite Hsettle; simpl. rewrite Htok; simpl. rewrite Htext.
  eexists; split; [reflexivity|]. simpl.
  split; [reflexivity|]. split; [apply lookup_insert_eq|].
  split.
  - intros tok ->. injection Htext as <-. apply lookup_insert_eq.
  - read_effects. reflexivity.
Qed.

Lemma login_success_stores_token_witness :
  exists w',
    login (scripted [Normal {| status := 200;
                               data := VObj [("access_token", VStr "tok123")] |}])
      {| username := "alice"; password := "pw" |} empty_world
    = (Normal tt, {| username := "alice"; password := "pw" |}, w') /\
    localStorage w' = <["token" := "tok123"]> ∅ /\
    localStorage w' !! "token" = Some "tok123" /\
    (forall tok : string,
        VStr "tok123" = VStr tok -> localStorage w' !! "token" = Some tok) /\
    navigations w' = ["/chat"].
Proof.
  apply (login_success_stores_token
           (scripted [Normal {| status := 200;
                                data := VObj [("access_token", VStr "tok123")] |}])
           {| username := "alice"; password := "pw" |} empty_world
           {| status := 200; data := VObj [("access_token", VStr "tok123")] |}
           ∅ (VStr "tok123") "tok123"); reflexivity.
Defined.

(** C2.  When the call to [/login] is rejected, by a network error or
    by an error status, and has left the storage as it found it,
    [login] leaves the storage as it was, navigates nowhere, and
    alerts. *)
Theorem login_failure_keeps_session
    (API : Axios) (s : State) (w : World) (e : error) :
  settle API (login_request s) w = (Throw e, localStorage w) ->
  exists w',
    login API s w = (Normal tt, s, w') /\
    localStorage w' = localStorage w /\
    navigations w' = navigations w /\
    alerts w' = alerts w ++ ["Login failed"].
Proof.
  intros Hsettle.
  run_page. unfold login_request in Hsettle; simpl in Hsettle.
  rewrite Hsettle; simpl.
  eexists; split; [reflexivity|]. simpl.
  split; [reflexivity|].
  read_effects. split; reflexivity.
Qed.

Lemma login_failure_keeps_session_witness :
  exists w',
    login (scripted [Throw (BadStatus 401 VNull)])
      {| username := "alice"; password := "bad" |} logged_in_world
    = (Normal tt, {| username := "alice"; password := "bad" |}, w') /\
    localStorage w' = localStorage logged_in_world /\
    navigations w' = navigations logged_in_world /\
    alerts w' = alerts logged_in_world ++ ["Login failed"].
Proof.
  apply (login_failure_keeps_session
           (scripted [Throw (BadStatus 401 VNull)])
           {| username := "alice"; password := "bad" |} logged_in_world
           (BadStatus 401 VNull)); reflexivity.
Defined.

(** A response that resolves with no data at all: reading the token off
    it throws, and the page reports a failed login. *)
Example login_unreadable_response :
  login (scripted [Normal {| status := 200; data := VNull |}])
    {| username := "alice"; password := "pw" |} empty_world =
  (Normal tt, {| username := "alice"; password := "pw" |},
   {| localStorage := ∅;
      effects := [Requested (login_request
                               {| username := "alice"; password := "pw" |});
                  Alert "Login failed"] |}).
Proof. reflexivity. Qed.

(** A response without the field: the text [undefined] is stored. *)
Example login_missing_token :
  localStorage
    (snd (login (scripted [Normal {| status := 200; data := VObj [] |}])
            {| username := "alice"; password := "pw" |} empty_world))
  !! "token" = Some "undefined".
Proof. reflexivity. Qed.

(** A token that is an object with a field [toString]: it cannot be
    written as a string, [setItem] throws inside the [try], and the
    page reports a failed login with nothing stored. *)
Example login_unwritable_token :
  login (scripted [Normal {| status := 200;
                             data := VObj [("access_token",
                                            VObj [("toString", VStr "x")])] |}])
    {| username := "alice"; password := "pw" |} empty_world =
  (Normal tt, {| username := "alice"; password := "pw" |},
   {| localStorage := ∅;
      effects := [Requested (login_request
                               {| username := "alice"; password := "pw" |});
                  Alert "Login failed"] |}).
Proof. reflexivity. Qed.

End LoginFacts.

Module SignupFacts.
Import Signup.

(** C8.  When the call to [/signup] resolves and has left the storage as
    it found it, [signup] ends normally with no value, the storage is
    what it was before (no token is stored: signing up does not log in),
    and the page goes back to the login page. *)
Theorem signup_success_creates_no_session
    (API : Axios) (s : State) (w : World) (res : Response) :
  settle API (signup_request s) w = (Normal res, localStorage w) ->
  exists w',
    signup API s w = (Normal tt, s, w') /\
    localStorage w' = localStorage w /\
    alerts w' = alerts w ++ ["Signup success"] /\
    navigations w' = navigations w ++ ["/"].
Proof.
  intros Hsettle.
  run_page. unfold signup_request in Hsettle; simpl in Hsettle.
  rewrite Hsettle; simpl.
  eexists; split; [reflexivity|]. simpl.
  split; [reflexivity|].
  read_effects. split; reflexivity.
Qed.

Lemma signup_success_creates_no_session_witness :
  exists w',
    signup (scripted [Normal {| status := 200; data := VNull |}])
      {| username := "alice"; password := "pw" |} logged_in_world
    = (Normal tt, {| username := "alice"; password := "pw" |}, w') /\
    localStorage w' = localStorage logged_in_world /\
    alerts w' = alerts logged_in_world ++ ["Signup success"] /\
    navigations w' = navigations logged_in_world ++ ["/"].
Proof.
  apply (signup_success_creates_no_session
           (scripted [Normal {| status := 200; data := VNull |}])
           {| username := "alice"; password := "pw" |} logged_in_world
           {| status := 200; data := VNull |}); reflexivity.
Defined.

(** [signup] writes nothing to the storage, whatever becomes of the
    call: the storage afterwards is the one the call left. *)
Lemma signup_storage (API : Axios) (s : State) (w : World) :
  localStorage (snd (signup API s w)) = snd (settle API (signup_request s) w).
Proof.
  run_page. unfold signup_request; simpl.
  destruct (settle API _ w) as [[res|e] store]; reflexivity.
Qed.

End SignupFacts.

Module ChatFacts.
Import Chat.

(** [send], case by case. *)
Lemma send_cases (API : Axios) (c : State) (w : World) :
  send API c w =
  match settle API (send_request c) w with
  | (Normal res, store) =>
      match JS.Get (data res) "bot_reply" with
      | Normal v => (Normal tt, setReply v c, sent c w store)
      | Throw e => (Throw e, c, sent c w store)
      end
  | (Throw e, store) => (Throw e, c, sent c w store)
  end.
Proof.
  run_page. unfold send_request, sent; simpl.
  destruct (settle API _ w) as [[res|e] store]; simpl; [|reflexivity].
  destruct (JS.Get (data res) "bot_reply"); reflexivity.
Qed.

Lemma send_normal (API : Axios) (c : State) (w : World)
    (u : unit) (c' : State) (w' : World) :
  send API c w = (Normal u, c', w') ->
  exists res store,
    settle API (send_request c) w = (Normal res, store) /\
    JS.Get (data res) "bot_reply" = Normal (reply c') /\
    c' = {| msg := msg c; reply := reply c' |} /\
    w' = sent c w store.
Proof.
  rewrite send_cases.
  destruct (settle API _ w) as [[res|e] store]; [|discriminate].
  destruct (JS.Get (data res) "bot_reply") as [v|e] eqn:Hget; [|discriminate].
  intros H; injection H as _ <- <-.
  exists res, store. repeat split; assumption.
Qed.

Lemma send_throw (API : Axios) (c : State) (w : World)
    (e : error) (c' : State) (w' : World) :
  send API c w = (Throw e, c', w') ->
  c' = c /\ exists store, w' = sent c w store.
Proof.
  rewrite send_cases.
  destruct (settle API _ w) as [[res|e0] store].
  - destruct (JS.Get (data res) "bot_reply") as [v|e1]; [discriminate|].
    intros H; injection H as _ <- <-. split; [reflexivity|]. eauto.
  - intros H; injection H as _ <- <-. split; [reflexivity|]. eauto.
Qed.

Lemma submit_is_send (API : Axios) (m : string) (c : State) (w : World) :
  submit API m c w = send API (setMsg m c) w.
Proof. reflexivity. Qed.

Lemma submitAll_cons (API : Axios) (m : string) (rest : list string)
    (c : State) (w : World) :
  submitAll API (m :: rest) c w =
  match send API (setMsg m c) w with
  | (Normal _, c', w') => submitAll API rest c' w'
  | (Throw e, c', w') => (Throw e, c', w')
  end.
Proof. reflexivity. Qed.

Lemma submitAll_app (API : Axios) (before after : list string)
    (c : State) (w : World) :
  submitAll API (before ++ after) c w =
  match submitAll API before c w with
  | (Normal _, c', w') => submitAll API after c' w'
  | (Throw e, c', w') => (Throw e, c', w')
  end.
Proof.
  revert c w. induction before as [|m before IH]; intros c w.
  - reflexivity.
  - simpl app. rewrite !submitAll_cons.
    destruct (send API (setMsg m c) w) as [[[u|e] c'] w']; [apply IH|reflexivity].
Qed.

Lemma requests_sent (c : State) (w : World) (store : Storage) :
  requests (sent c w store) = requests w ++ [send_request c].
Proof. unfold sent. read_effects. reflexivity. Qed.

Lemma alerts_sent (c : State) (w : World) (store : Storage) :
  alerts (sent c w store) = alerts w.
Proof. unfold sent. read_effects. reflexivity. Qed.

Lemma navigations_sent (c : State) (w : World) (store : Storage) :
  navigations (sent c w store) = navigations w.
Proof. unfold sent. read_effects. reflexivity. Qed.

(** Whatever becomes of it, [send] hands one request to axios. *)
Lemma send_requests (API : Axios) (c : State) (w : World) :
  requests (snd (send API c w)) = requests w ++ [send_request c].
Proof.
  rewrite send_cases.
  destruct (settle API _ w) as [[res|e] store]; simpl;
    [destruct (JS.Get (data res) "bot_reply")|]; simpl; apply requests_sent.
Qed.

Lemma submitAll_requests (API : Axios) (contents : list string) :
  forall (c : State) (w : World) (u : unit) (c' : State) (w' : World),
    submitAll API contents c w = (Normal u, c', w') ->
    requests w' = requests w ++ map chat_request contents.
Proof.
  induction contents as [|m rest IH]; intros c w u c' w' H.
  - injection H as _ _ <-. simpl. rewrite app_nil_r. reflexivity.
  - rewrite submitAll_cons in H.
    pose proof (send_requests API (setMsg m c) w) as Hreq.
    destruct (send API (setMsg m c) w) as [[[u1|e] c1] w1]; [|discriminate].
    apply IH in H. rewrite H. simpl in Hreq. rewrite Hreq.
    rewrite <- app_assoc. reflexivity.
Qed.

Lemma last_nonempty {A} (l : list A) (x d d' : A) :
  List.last (x :: l) d = List.last (x :: l) d'.
Proof.
  revert x. induction l as [|y l IH]; intros x; [reflexivity|].
  change (List.last (y :: l) d = List.last (y :: l) d'). apply IH.
Qed.

Lemma submitAll_msg (API : Axios) (contents : list string) :
  forall (c : State) (w : World) (u : unit) (c' : State) (w' : World),
    submitAll API contents c w = (Normal u, c', w') ->
    msg c' = List.last contents (msg c).
Proof.
  induction contents as [|m rest IH]; intros c w u c' w' H.
  - injection H as _ <- _. reflexivity.
  - rewrite submitAll_cons in H.
    destruct (send API (setMsg m c) w) as [[[u1|e] c1] w1] eqn:Hsend;
      [|discriminate].
    apply send_normal in Hsend as (res & store & _ & _ & Hc1 & _).
    apply IH in H. rewrite H. rewrite Hc1. simpl msg.
    destruct rest as [|m' rest]; [reflexivity|].
    change (List.last (m :: m' :: rest) (msg c))
      with (List.last (m' :: rest) (msg c)).
    apply last_nonempty.
Qed.

(** The exchange of the specification, on the page: [hi] is sent, the
    server answers [hello]; the cells hold the text and the reply. *)
Example hi_hello :
  submit greeter "hi" initial empty_world =
  (Normal tt, {| msg := "hi"; reply := VStr "hello" |},
   {| localStorage := ∅; effects := [Requested (chat_request "hi")] |}).
Proof. reflexivity. Qed.

(** C3, as the specification words it, fails of the page: no reading
    of the cells of the chat view as a list of messages has, after every
    sequence of N sends that all succeed, the roles user, bot, user,
    bot, ... of N exchanges.  One message sent and answered and the same
    message sent and answered twice leave the same cells. *)
Lemma history_of_sends_refuted :
  ~ exists history : State -> list Message,
      forall (API : Axios) (contents : list string)
             (w : World) (c' : State) (w' : World),
        submitAll API contents initial w = (Normal tt, c', w') ->
        map role (history c') = alternating (length contents).
Proof.
  intros [history H].
  pose proof (H greeter ["hi"] empty_world
                {| msg := "hi"; reply := VStr "hello" |} _ eq_refl) as H1.
  pose proof (H greeter ["hi"; "hi"] empty_world
                {| msg := "hi"; reply := VStr "hello" |} _ eq_refl) as H2.
  rewrite H1 in H2. discriminate H2.
Qed.

(** C3, amended.  After N sends that all succeed, each awaited before
    the next, axios has been handed N requests to [/chat], in the order
    of the calls, each with the body [{ message }] of its call; the cells
    of the view hold the text of the last call and, as the reply, the
    [bot_reply] of the answer to the last call, and that is all they
    hold. *)
Theorem sends_leave_last_exchange
    (API : Axios) (contents : list string)
    (c : State) (w : World) (c' : State) (w' : World) :
  submitAll API contents c w = (Normal tt, c', w') ->
  requests w' = requests w ++ map chat_request contents /\
  msg c' = List.last contents (msg c) /\
  (contents = [] -> reply c' = reply c) /\
  (forall (before : list string) (m : string),
      contents = before ++ [m] ->
      exists (c1 : State) (w1 : World) (res : Response) (store : Storage),
        submitAll API before c w = (Normal tt, c1, w1) /\
        settle API (chat_request m) w1 = (Normal res, store) /\
        JS.Get (data res) "bot_reply" = Normal (reply c')).
Proof.
  intros H. repeat split.
  - eapply submitAll_requests, H.
  - eapply submitAll_msg, H.
  - intros ->. injection H as <- _. reflexivity.
  - intros before m ->. rewrite submitAll_app in H.
    destruct (submitAll API before c w) as [[[[]|e] c1] w1]; [|discriminate].
    rewrite submitAll_cons in H.
    destruct (send API (setMsg m c1) w1) as [[[u|e] c2] w2] eqn:Hsend;
      [|discriminate].
    injection H as -> ->.
    apply send_normal in Hsend as (res & store & Hsettle & Hget & _ & _).
    exists c1, w1, res, store. auto.
Qed.

Lemma sends_leave_last_exchange_witness :
  requests (snd (submitAll greeter ["hi"; "again"] initial empty_world)) =
    requests empty_world ++ map chat_request ["hi"; "again"] /\
  fst (fst (submitAll greeter ["hi"; "again"] initial empty_world)) =
    Normal tt /\
  snd (fst (submitAll greeter ["hi"; "again"] initial empty_world)) =
    {| msg := "again"; reply := VStr "hello" |}.
Proof.
  pose proof (sends_leave_last_exchange greeter ["hi"; "again"]
                initial empty_world
                {| msg := "again"; reply := VStr "hello" |}
                (snd (submitAll greeter ["hi"; "again"] initial empty_world))
                eq_refl) as (Hreq & _).
  split; [exact Hreq|]. split; reflexivity.
Defined.

(** C4, as the specification words it, fails of the page: no reading
    of the cells of the chat view as a list of messages grows by the
    message of the user at every send that fails.  A text that is sent
    again after a failure finds and leaves the same cells. *)
Lemma history_after_failure_refuted :
  ~ exists history : State -> list Message,
      forall (API : Axios) (m : string) (c : State) (w : World)
             (e : error) (c' : State) (w' : World),
        submit API m c w = (Throw e, c', w') ->
        history c' = history c ++ [{| role := user; content := m |}].
Proof.
  intros [history H].
  pose proof (H unreachable "hi" {| msg := "hi"; reply := VStr "" |}
                empty_world NetworkError
                {| msg := "hi"; reply := VStr "" |} _ eq_refl) as H1.
  apply (f_equal (@length Message)) in H1.
  rewrite length_app in H1. simpl in H1. lia.
Qed.

(** C4, amended.  A send that fails leaves the cells of the chat view
    as they were when the button was pressed: the text stays in the
    input, the reply on display is not replaced, nothing is added to any
    list.  One request has gone to axios; nothing is alerted and the
    page does not move. *)
Theorem failed_send_keeps_cells
    (API : Axios) (m : string) (c : State) (w : World)
    (e : error) (c' : State) (w' : World) :
  submit API m c w = (Throw e, c', w') ->
  c' = {| msg := m; reply := reply c |} /\
  requests w' = requests w ++ [chat_request m] /\
  alerts w' = alerts w /\
  navigations w' = navigations w.
Proof.
  rewrite submit_is_send. intros H.
  apply send_throw in H as [-> [store ->]].
  rewrite requests_sent, alerts_sent, navigations_sent. auto.
Qed.

Lemma failed_send_keeps_cells_witness :
  snd (fst (submit unreachable "hi"
              {| msg := ""; reply := VStr "hello" |} empty_world)) =
    {| msg := "hi"; reply := VStr "hello" |} /\
  requests (snd (submit unreachable "hi"
                   {| msg := ""; reply := VStr "hello" |} empty_world)) =
    requests empty_world ++ [chat_request "hi"].
Proof.
  pose proof (failed_send_keeps_cells unreachable "hi"
                {| msg := ""; reply := VStr "hello" |} empty_world
                NetworkError _ _ eq_refl) as (Hc & Hreq & _).
  split; [exact Hc | exact Hreq].
Defined.





(** Two sends that overlap: the answer to the second message comes
    first, the answer to the first comes last and is the one on
    display. *)
Example answers_out_of_order :
  view (fst (play echo
               [Types "first"; Presses; Types "second"; Presses;
                Arrives 1; Arrives 0]
               opened empty_world)) =
  Some {| msg := "second"; reply := VStr "re: first" |}.
Proof. reflexivity. Qed.




End ChatFacts.

(** * What reaches the server *)

Module URLFacts.
Import URL.
Local Open Scope string_scope.

Lemma append_assoc (a b c : string) : (a ++ b) ++ c = a ++ b ++ c.
Proof.
  induction a as [|x a IH]; [reflexivity|].
  change (String x ((a ++ b) ++ c) = String x (a ++ b ++ c)).
  f_equal. exact IH.
Qed.

Lemma absent_app (c : ascii) (a b : string) :
  absent c (a ++ b) = absent c a && absent c b.
Proof.
  induction a as [|x a IH]; simpl; [reflexivity|].
  rewrite IH. apply andb_assoc.
Qed.

Lemma cut_absent (sep : ascii) (s : string) :
  absent sep s = true -> cut sep s = (s, None).
Proof.
  induction s as [|x s IH]; simpl; [reflexivity|].
  intros H. apply andb_prop in H as [Hx Hs].
  apply negb_true_iff in Hx. rewrite Hx, (IH Hs). reflexivity.
Qed.

Lemma cut_at_first (sep : ascii) (a b : string) :
  absent sep a = true -> cut sep (a ++ String sep b) = (a, Some b).
Proof.
  induction a as [|x a IH]; simpl.
  - intros _. rewrite Ascii.eqb_refl. reflexivity.
  - intros H. apply andb_prop in H as [Hx Ha].
    apply negb_true_iff in Hx. rewrite Hx, (IH Ha). reflexivity.
Qed.

Lemma split_absent (sep : ascii) (s : string) :
  absent sep s = true -> split sep s = [s].
Proof.
  induction s as [|x s IH]; simpl; [reflexivity|].
  intros H. apply andb_prop in H as [Hx Hs].
  apply negb_true_iff in Hx. rewrite Hx, (IH Hs). reflexivity.
Qed.

Lemma split_at_first (sep : ascii) (a b : string) :
  absent sep a = true -> split sep (a ++ String sep b) = a :: split sep b.
Proof.
  induction a as [|x a IH]; simpl.
  - intros _. rewrite Ascii.eqb_refl. reflexivity.
  - intros H. apply andb_prop in H as [Hx Ha].
    apply negb_true_iff in Hx. rewrite Hx, (IH Ha). reflexivity.
Qed.

(** A text without [+] and [%] decodes to itself. *)
Lemma decode_without_escapes (s : string) :
  absent "+" s = true -> absent "%" s = true -> decode s = s.
Proof.
  induction s as [|x s IH]; simpl; [reflexivity|].
  intros Hp Hq.
  apply andb_prop in Hp as [Hp Hps]. apply andb_prop in Hq as [Hq Hqs].
  apply negb_true_iff in Hp, Hq. rewrite Hp, Hq, (IH Hps Hqs). reflexivity.
Qed.

(** The encoding of one byte. *)
Lemma encode_cons (c : ascii) (rest : string) :
  encode (String c rest) = encode (String c "") ++ encode rest.
Proof.
  simpl. destruct (Ascii.eqb c " "); [reflexivity|].
  destruct (unreserved c); reflexivity.
Qed.

(** Byte by byte: what is written for a byte has neither [&] nor [=],
    and is read back as that byte. *)
Lemma encode_byte_clean (c : ascii) :
  absent "&" (encode (String c "")) = true /\
  absent "=" (encode (String c "")) = true.
Proof.
  destruct c as [[] [] [] [] [] [] [] []]; split; reflexivity.
Qed.

Lemma decode_encode_byte (c : ascii) (rest : string) :
  decode (encode (String c "") ++ rest) = String c (decode rest).
Proof.
  destruct c as [[] [] [] [] [] [] [] []]; reflexivity.
Qed.

Lemma encode_clean (s : string) :
  absent "&" (encode s) = true /\ absent "=" (encode s) = true.
Proof.
  induction s as [|c s [IH1 IH2]]; [split; reflexivity|].
  rewrite encode_cons, !absent_app, IH1, IH2.
  destruct (encode_byte_clean c) as [-> ->]. split; reflexivity.
Qed.

(** Decoding undoes encoding, for every text. *)
Lemma decode_encode (s : string) : decode (encode s) = s.
Proof.
  induction s as [|c s IH]; [reflexivity|].
  rewrite encode_cons, decode_encode_byte, IH. reflexivity.
Qed.

(** The piece of a form-encoded text that writes one pair. *)
Lemma parse_pair_encoded (name val : string) :
  parse_pair (encode name ++ String "=" (encode val)) = (name, val).
Proof.
  unfold parse_pair.
  rewrite cut_at_first by apply encode_clean.
  rewrite !decode_encode. reflexivity.
Qed.

Lemma piece_not_empty (a b : string) (c : ascii) :
  negb (String.eqb (a ++ String c b) "") = true.
Proof. destruct a; reflexivity. Qed.

Lemma serialize_cons (name val : string) (rest : list (string * string)) :
  rest <> [] ->
  serialize ((name, val) :: rest) =
  (encode name ++ String "=" (encode val)) ++ String "&" (serialize rest).
Proof.
  destruct rest as [|p rest]; [congruence|]. intros _.
  simpl. rewrite !append_assoc. reflexivity.
Qed.

(** The parser reads back what the serializer wrote: a form built with
    [URLSearchParams] reaches the server as the pairs that were appended
    to it, whatever their text. *)
Lemma parse_serialize (pairs : list (string * string)) :
  parse (serialize pairs) = pairs.
Proof.
  induction pairs as [|[name val] rest IH]; [reflexivity|].
  destruct rest as [|p rest].
  - unfold parse. simpl serialize.
    change (encode name ++ "=" ++ encode val)
      with (encode name ++ String "=" (encode val)).
    rewrite split_absent.
    + simpl. rewrite piece_not_empty. simpl.
      rewrite parse_pair_encoded. reflexivity.
    + rewrite absent_app. simpl.
      destruct (encode_clean name) as [-> _].
      destruct (encode_clean val) as [-> _]. reflexivity.
  - rewrite serialize_cons by congruence.
    unfold parse in *. rewrite split_at_first.
    + simpl List.filter. rewrite piece_not_empty. simpl map.
      rewrite parse_pair_encoded. f_equal. exact IH.
    + rewrite absent_app. simpl.
      destruct (encode_clean name) as [-> _].
      destruct (encode_clean val) as [-> _]. reflexivity.
Qed.

(** Decoding never makes a text longer. *)
Lemma decode_length_bounded (n : nat) :
  forall s : string,
    String.length s <= n -> String.length (decode s) <= String.length s.
Proof.
  induction n as [|n IH]; intros s Hn.
  - destruct s; simpl in *; lia.
  - destruct s as [|c rest]; [simpl; lia|].
    simpl in Hn.
    assert (Hrest : String.length (decode rest) <= String.length rest)
      by (apply IH; lia).
    simpl decode. destruct (Ascii.eqb c "+"); [simpl; lia|].
    destruct (Ascii.eqb c "%"); [|simpl; lia].
    destruct rest as [|h [|l rest']]; try (simpl in *; lia).
    destruct (hex_value h); [|simpl in *; lia].
    destruct (hex_value l); [|simpl in *; lia].
    assert (String.length (decode rest') <= String.length rest')
      by (apply IH; simpl in Hn; lia).
    simpl. lia.
Qed.

Lemma decode_length (s : string) :
  String.length (decode s) <= String.length s.
Proof. apply (decode_length_bounded (String.length s)). lia. Qed.

Lemma length_append (a b : string) :
  String.length (a ++ b) = String.length a + String.length b.
Proof. induction a as [|x a IH]; simpl; [reflexivity|]. rewrite IH. reflexivity. Qed.

(** Where a byte occurs in a text, it occurs a first time. *)
Lemma first_occurrence (c : ascii) (s : string) :
  absent c s = false ->
  exists a b : string, s = a ++ String c b /\ absent c a = true.
Proof.
  induction s as [|x s IH]; simpl; [discriminate|].
  destruct (Ascii.eqb x c) eqn:Hx; simpl.
  - intros _. apply Ascii.eqb_eq in Hx as ->. exists "", s. split; reflexivity.
  - intros H. destruct (IH H) as (a & b & -> & Ha).
    exists (String x a), b. split; [reflexivity|].
    simpl. rewrite Hx, Ha. reflexivity.
Qed.

Lemma cut_after_absent (sep : ascii) (a b : string) :
  absent sep a = true ->
  cut sep (a ++ b) = (a ++ fst (cut sep b), snd (cut sep b)).
Proof.
  induction a as [|x a IH].
  - intros _. change (cut sep b = (fst (cut sep b), snd (cut sep b))).
    destruct (cut sep b); reflexivity.
  - simpl. intros H. apply andb_prop in H as [Hx Ha].
    apply negb_true_iff in Hx. rewrite Hx, (IH Ha). reflexivity.
Qed.

(** ** What the URL parser drops *)

Lemma strip_trailing_cons (c : ascii) (rest : string) :
  blank c = false ->
  strip_trailing (String c rest) = String c (strip_trailing rest).
Proof.
  intros Hc. simpl. rewrite Hc. destruct (strip_trailing rest); reflexivity.
Qed.

Lemma append_not_empty (a b : string) : b <> "" -> a ++ b <> "".
Proof. destruct a; [trivial | discriminate]. Qed.

(** The blanks at the end are those of the end. *)
Lemma strip_trailing_app (a b : string) :
  strip_trailing b <> "" -> strip_trailing (a ++ b) = a ++ strip_trailing b.
Proof.
  intros Hb. induction a as [|x a IH]; [reflexivity|].
  change (strip_trailing (String x (a ++ b)) = String x (a ++ strip_trailing b)).
  simpl. rewrite IH.
  pose proof (append_not_empty a _ Hb) as Hne.
  destruct (a ++ strip_trailing b); [congruence | reflexivity].
Qed.

Lemma without_breaks_app (a b : string) :
  without_breaks (a ++ b) = without_breaks a ++ without_breaks b.
Proof.
  induction a as [|x a IH]; [reflexivity|].
  change (without_breaks (String x (a ++ b)) =
          without_breaks (String x a) ++ without_breaks b).
  simpl. rewrite IH. destruct (tab_or_newline x); reflexivity.
Qed.

Lemma without_breaks_length (s : string) :
  String.length (without_breaks s) <= String.length s.
Proof.
  induction s as [|x s IH]; simpl; [lia|].
  destruct (tab_or_newline x); simpl; lia.
Qed.

Lemma strip_trailing_length (s : string) :
  String.length (strip_trailing s) <= String.length s.
Proof.
  induction s as [|x s IH]; simpl; [lia|].
  destruct (strip_trailing s); [destruct (blank x)|]; simpl in *; lia.
Qed.

(** What is not shortened is not changed. *)
Lemma without_breaks_same (s : string) :
  String.length s <= String.length (without_breaks s) -> without_breaks s = s.
Proof.
  induction s as [|x s IH]; simpl; [reflexivity|].
  pose proof (without_breaks_length s).
  destruct (tab_or_newline x); simpl; intros H'; [lia|].
  rewrite IH by lia. reflexivity.
Qed.

Lemma strip_trailing_same (s : string) :
  String.length s <= String.length (strip_trailing s) -> strip_trailing s = s.
Proof.
  induction s as [|x s IH]; simpl; [reflexivity|].
  pose proof (strip_trailing_length s) as Hlen.
  destruct (strip_trailing s) as [|y kept] eqn:Hkept.
  - destruct (blank x); simpl; intros H'; [lia|].
    rewrite <- IH by (simpl in *; lia). reflexivity.
  - simpl. intros H'. rewrite <- IH by (simpl in *; lia). reflexivity.
Qed.

(** A byte that is neither tab nor newline is where it was. *)
Lemma without_breaks_absent (c : ascii) (s : string) :
  tab_or_newline c = false ->
  absent c (without_breaks s) = absent c s.
Proof.
  intros Hc. induction s as [|x s IH]; simpl; [reflexivity|].
  destruct (tab_or_newline x) eqn:Hx; simpl; rewrite IH; [|reflexivity].
  destruct (Ascii.eqb x c) eqn:Heq; [|reflexivity].
  apply Ascii.eqb_eq in Heq. congruence.
Qed.

Lemma strip_trailing_absent (c : ascii) (s : string) :
  blank c = false ->
  absent c (strip_trailing s) = absent c s.
Proof.
  intros Hc. induction s as [|x s IH]; simpl; [reflexivity|].
  destruct (strip_trailing s) as [|y kept] eqn:Hkept.
  - simpl in IH. rewrite <- IH.
    destruct (blank x) eqn:Hx; simpl; [|reflexivity].
    destruct (Ascii.eqb x c) eqn:Heq; [|reflexivity].
    apply Ascii.eqb_eq in Heq. congruence.
  - rewrite <- IH. reflexivity.
Qed.


(** The URL of [signup] after the URL parser has dropped what it
    drops: the tabs and newlines of both texts, and the blanks at the
    end of the password. *)
Lemma trimmed_signup (u p : string) :
  trimmed (Signup.signup_url
             {| Signup.username := u; Signup.password := p |}) =
  Signup.signup_url
    {| Signup.username := without_breaks u;
       Signup.password := without_breaks (strip_trailing p) |}.
Proof.
  unfold trimmed, Signup.signup_url.
  simpl Signup.username. simpl Signup.password.
  change (strip_leading ("/signup?username=" ++ u ++ "&password=" ++ p))
    with ("/signup?username=" ++ u ++ "&password=" ++ p).
  replace ("/signup?username=" ++ u ++ "&password=" ++ p)
    with (("/signup?username=" ++ u ++ "&password") ++ String "=" p)
    by (rewrite !append_assoc; reflexivity).
  rewrite strip_trailing_app
    by (rewrite strip_trailing_cons by reflexivity; discriminate).
  rewrite strip_trailing_cons by reflexivity.
  rewrite !without_breaks_app.
  change (without_breaks (String "=" (strip_trailing p)))
    with (String "=" (without_breaks (strip_trailing p))).
  change (without_breaks "/signup?username=") with "/signup?username=".
  change (without_breaks "&password") with "&password".
  rewrite !append_assoc. reflexivity.
Qed.

Lemma signup_query_trimmed (s : Signup.State) :
  query (Signup.signup_url s) =
  query_in (Signup.signup_url
              {| Signup.username := without_breaks (Signup.username s);
                 Signup.password :=
                   without_breaks (strip_trailing (Signup.password s)) |}).
Proof. destruct s as [u p]. unfold query. rewrite trimmed_signup. reflexivity. Qed.

(** ** What the query of [signup] is read as *)

(** Without [&] and [#] in the two texts, the two pieces are read. *)
Lemma query_in_pieces (u p : string) :
  absent "&" u = true -> absent "#" u = true ->
  absent "&" p = true -> absent "#" p = true ->
  path_in (Signup.signup_url
             {| Signup.username := u; Signup.password := p |}) = "/signup" /\
  parse (query_in (Signup.signup_url
                     {| Signup.username := u; Signup.password := p |})) =
  [("username", decode u); ("password", decode p)].
Proof.
  intros Hu1 Hu2 Hp1 Hp2.
  unfold Signup.signup_url, path_in, query_in.
  simpl Signup.username. simpl Signup.password.
  rewrite (cut_absent "#")
    by (rewrite !absent_app, Hu2, Hp2; reflexivity).
  cbn [fst].
  assert (Hcut : cut "?" ("/signup?username=" ++ u ++ "&password=" ++ p) =
                 ("/signup",
                  Some (("username=" ++ u) ++ String "&" ("password=" ++ p)))).
  { rewrite append_assoc. reflexivity. }
  rewrite Hcut. split; [reflexivity|]. unfold parse.
  rewrite split_at_first by (rewrite absent_app, Hu1; reflexivity).
  rewrite split_absent by (rewrite absent_app, Hp1; reflexivity).
  reflexivity.
Qed.

(** With an [&] in the username, what is read as the username is
    shorter than it, when two parameters are read at all. *)
Lemma query_in_ampersand (u p x y : string) :
  absent "&" u = false ->
  String.length u <= String.length x ->
  parse (query_in (Signup.signup_url
                     {| Signup.username := u; Signup.password := p |})) <>
  [("username", x); ("password", y)].
Proof.
  intros Hamp Hlen. destruct (first_occurrence _ _ Hamp) as (a & b & -> & Ha).
  unfold Signup.signup_url, query_in, parse.
  simpl Signup.username. simpl Signup.password.
  destruct (absent "#" a) eqn:Hhash.
  - replace ("/signup?username=" ++ (a ++ String "&" b) ++ "&password=" ++ p)
      with (("/signup?username=" ++ a ++ "&") ++ (b ++ "&password=" ++ p))
      by (rewrite !append_assoc; reflexivity).
    rewrite (cut_after_absent "#")
      by (rewrite !absent_app, Hhash; reflexivity).
    cbn [fst].
    set (r := fst (cut "#" (b ++ "&password=" ++ p))).
    assert (Hcut : cut "?" (("/signup?username=" ++ a ++ "&") ++ r) =
                   ("/signup", Some (("username=" ++ a) ++ String "&" r))).
    { rewrite !append_assoc. reflexivity. }
    rewrite Hcut.
    rewrite split_at_first by (rewrite absent_app, Ha; reflexivity).
    assert (Hu : parse_pair ("username=" ++ a) = ("username", decode a))
      by reflexivity.
    simpl List.filter. simpl map. rewrite Hu.
    intros Heq. injection Heq as Heq _.
    pose proof (decode_length a) as Hdec.
    rewrite Heq in Hdec. rewrite length_append in Hlen. simpl in Hlen. lia.
  - destruct (first_occurrence _ _ Hhash) as (a1 & a2 & -> & Ha1).
    rewrite absent_app in Ha. apply andb_prop in Ha as [Ha1amp _].
    replace ("/signup?username=" ++
             ((a1 ++ String "#" a2) ++ String "&" b) ++ "&password=" ++ p)
      with (("/signup?username=" ++ a1) ++
            String "#" (a2 ++ String "&" b ++ "&password=" ++ p))
      by (rewrite !append_assoc; reflexivity).
    rewrite cut_at_first by (rewrite absent_app, Ha1; reflexivity).
    cbn [fst].
    assert (Hcut : cut "?" ("/signup?username=" ++ a1) =
                   ("/signup", Some ("username=" ++ a1))) by reflexivity.
    rewrite Hcut.
    rewrite split_absent by (rewrite absent_app, Ha1amp; reflexivity).
    simpl. discriminate.
Qed.

(** With a [#] in the username, the query stops before it. *)
Lemma query_in_hash (u p other : string) :
  absent "#" u = false ->
  query_in (Signup.signup_url
              {| Signup.username := u; Signup.password := p |}) =
  query_in (Signup.signup_url
              {| Signup.username := u; Signup.password := other |}).
Proof.
  intros Hhash. destruct (first_occurrence _ _ Hhash) as (a & b & -> & Ha).
  unfold Signup.signup_url, query_in.
  simpl Signup.username. simpl Signup.password.
  assert (Hcut : forall rest : string,
             cut "#" ("/signup?username=" ++ (a ++ String "#" b) ++ rest) =
             ("/signup?username=" ++ a, Some (b ++ rest))).
  { intros rest.
    replace ("/signup?username=" ++ (a ++ String "#" b) ++ rest)
      with (("/signup?username=" ++ a) ++ String "#" (b ++ rest))
      by (rewrite !append_assoc; reflexivity).
    apply cut_at_first. rewrite absent_app, Ha. reflexivity. }
  rewrite !Hcut. reflexivity.
Qed.



(** A username with an [&] in it never reaches the server as it was
    submitted: what is read as the username stops before the [&]. *)
Lemma signup_ampersand_misread (s : Signup.State) :
  absent "&" (Signup.username s) = false ->
  parse (query (Signup.signup_url s)) <>
  [("username", Signup.username s); ("password", Signup.password s)].
Proof.
  intros Hamp. rewrite signup_query_trimmed.
  apply query_in_ampersand.
  - rewrite without_breaks_absent by reflexivity. exact Hamp.
  - apply without_breaks_length.
Qed.

End URLFacts.

Module WireFacts.
Import URL URLFacts.

Lemma login_requests (API : Axios) (s : Login.State) (w : World) :
  requests (snd (Login.login API s w)) = requests w ++ [Login.login_request s].
Proof.
  run_page. unfold Login.login_request; simpl.
  destruct (settle API _ w) as [[res|e] store]; simpl.
  - destruct (JS.Get (data res) "access_token") as [v|e]; simpl.
    + destruct (ToString v); simpl; read_effects; reflexivity.
    + read_effects. reflexivity.
  - read_effects. reflexivity.
Qed.

Lemma signup_requests (API : Axios) (s : Signup.State) (w : World) :
  requests (snd (Signup.signup API s w)) =
  requests w ++ [Signup.signup_request s].
Proof.
  run_page. unfold Signup.signup_request; simpl.
  destruct (settle API _ w) as [[res|e] store]; simpl;
    read_effects; reflexivity.
Qed.

Lemma request_requests {σ : Type} (API : Axios) (r : HttpRequest)
    (st : σ) (w : World) :
  requests (snd (request API r st w)) = requests w ++ [r].
Proof.
  unfold request. destruct (settle API r w) as [outcome store]; simpl.
  read_effects. reflexivity.
Qed.

(** [loginUser], when every value of [data] can be written as a
    string. *)
Lemma loginUser_converted {σ : Type} (API : Axios)
    (data : list (string * value)) (form : URLSearchParams)
    (st : σ) (w : World) :
  chatApi.URLSearchParams_of data = Normal form ->
  chatApi.loginUser API data st w =
  request API {| method := POST; url := "/login"; body := FormBody form;
                 params := [] |} st w.
Proof.
  intros Hform. unfold chatApi.loginUser, bind, lift, post.
  rewrite Hform. reflexivity.
Qed.

(** The username [a&b]: the server is sent three parameters, and the
    username among them is [a]. *)
Example signup_ampersand :
  parse (query (Signup.signup_url
                  {| Signup.username := "a&b"; Signup.password := "pw" |})) =
  [("username", "a"); ("b", ""); ("password", "pw")].
Proof. reflexivity. Qed.

(** A [#] in the username: the password never leaves the browser. *)
Example signup_hash :
  parse (query (Signup.signup_url
                  {| Signup.username := "a#b"; Signup.password := "pw" |})) =
  [("username", "a")].
Proof. reflexivity. Qed.

(** A [+] is read as a space, a [%] with two digits as one byte. *)
Example signup_plus :
  parse (query (Signup.signup_url
                  {| Signup.username := "a+b"; Signup.password := "pw" |})) =
  [("username", "a b"); ("password", "pw")].
Proof. reflexivity. Qed.

Example signup_percent :
  parse (query (Signup.signup_url
                  {| Signup.username := "a%41"; Signup.password := "pw" |})) =
  [("username", "aA"); ("password", "pw")].
Proof. reflexivity. Qed.

(** A blank at the end of the password is dropped on the way. *)
Example signup_trailing_space :
  parse (query (Signup.signup_url
                  {| Signup.username := "alice"; Signup.password := "pw " |})) =
  [("username", "alice"); ("password", "pw")].
Proof. reflexivity. Qed.

(** An [=] alone does no harm: a value goes on after the first [=]. *)
Example signup_equals_sign :
  parse (query (Signup.signup_url
                  {| Signup.username := "a=b"; Signup.password := "pw" |})) =
  [("username", "a=b"); ("password", "pw")].
Proof. reflexivity. Qed.

(** Two submissions, one URL. *)
Example signup_url_collision :
  Signup.signup_url
    {| Signup.username := "a&password=b"; Signup.password := "c" |} =
  Signup.signup_url
    {| Signup.username := "a"; Signup.password := "b&password=c" |}.
Proof. reflexivity. Qed.




(** C9, as the claim words it, fails of the signup page: an [=] in the
    username is no example.  The username [a=b] is read back from the
    request as it was typed. *)
Lemma equals_sign_refuted :
  ~ (forall (API : Axios) (s : Signup.State) (w : World) (r : HttpRequest),
        requests (snd (Signup.signup API s w)) = requests w ++ [r] ->
        absent "&" (Signup.username s) = false \/
        absent "=" (Signup.username s) = false ->
        parse (query (url r)) <>
        [("username", Signup.username s); ("password", Signup.password s)]).
Proof.
  intros H.
  apply (H unreachable
           {| Signup.username := "a=b"; Signup.password := "pw" |}
           empty_world
           (Signup.signup_request
              {| Signup.username := "a=b"; Signup.password := "pw" |})).
  - apply signup_requests.
  - right. reflexivity.
  - reflexivity.
Qed.

(** C9, amended.  The request of [signup] has for its URL the fixed
    pieces with the two texts put between them as they were typed, and
    has nothing else.  So the parameters the request carries are not
    always the username and the password that were submitted: they are
    not for any username with an [&] in it, and not for the usernames
    [a#b], [a+b] and [a%41]; and two different submissions can make
    [signup] hand over the same request, so that nothing that reads the
    request gives back what was submitted every time. *)
Theorem signup_query_unfaithful (API : Axios) (w : World) :
  (forall s : Signup.State,
      exists r : HttpRequest,
        requests (snd (Signup.signup API s w)) = requests w ++ [r] /\
        method r = POST /\
        url r = ("/signup?username=" ++ Signup.username s ++
                 "&password=" ++ Signup.password s)%string /\
        body r = NoBody /\
        params r = [] /\
        (absent "&" (Signup.username s) = false ->
         parse (query (url r)) <>
         [("username", Signup.username s); ("password", Signup.password s)]) /\
        (In (Signup.username s) ["a#b"; "a+b"; "a%41"]%string ->
         Signup.password s = "pw"%string ->
         parse (query (url r)) <>
         [("username", Signup.username s); ("password", Signup.password s)])) /\
  (exists s1 s2 : Signup.State,
      s1 <> s2 /\
      requests (snd (Signup.signup API s1 w)) =
      requests (snd (Signup.signup API s2 w))).
Proof.
  split.
  - intros s. exists (Signup.signup_request s).
    split; [apply signup_requests|].
    repeat (split; [reflexivity|]).
    split.
    + apply signup_ampersand_misread.
    + destruct s as [u p]. simpl. intros Hu ->.
      destruct Hu as [<- | [<- | [<- | []]]]; discriminate.
  - exists {| Signup.username := "a&password=b"; Signup.password := "c" |},
           {| Signup.username := "a"; Signup.password := "b&password=c" |}.
    split; [discriminate|].
    rewrite !signup_requests. reflexivity.
Qed.

Lemma signup_query_unfaithful_witness :
  exists r : HttpRequest,
    requests (snd (Signup.signup unreachable
                     {| Signup.username := "tom&jerry";
                        Signup.password := "pw" |} empty_world)) =
      requests empty_world ++ [r] /\
    parse (query (url r)) <> [("username", "tom&jerry"); ("password", "pw")].
Proof.
  destruct (proj1 (signup_query_unfaithful unreachable empty_world)
              {| Signup.username := "tom&jerry"; Signup.password := "pw" |})
    as (r & Hreq & _ & _ & _ & _ & Hamp & _).
  exists r. split; [exact Hreq | exact (Hamp eq_refl)].
Defined.

End WireFacts.

(** * The dispatcher of the specification *)

Module DispatcherFacts.
Import Dispatcher.

(** C5.  An authorized request made while the store holds no session is
    answered [Unauthenticated] at once: the client is as it was, so the
    transport has received no call. *)
Theorem unauthenticated_without_call
    (transport : Outgoing -> Wire) (auth_failure success : Z -> bool)
    (r : RequestSpec) (c : Client) :
  authorized r = true ->
  SessionStore.get c = None ->
  send transport auth_failure success r c = (inr Unauthenticated, c) /\
  calls (snd (send transport auth_failure success r c)) = calls c.
Proof.
  intros Hauth Hnone. unfold send. rewrite Hauth, Hnone. split; reflexivity.
Qed.

Lemma unauthenticated_without_call_witness :
  send refusing is_401 is_2xx chat_spec no_session =
    (inr Unauthenticated, no_session) /\
  calls (snd (send refusing is_401 is_2xx chat_spec no_session)) =
    calls no_session.
Proof.
  apply (unauthenticated_without_call refusing is_401 is_2xx
           chat_spec no_session); reflexivity.
Defined.

(** C6.  An authorized request whose answer has a status of
    authorization failure is answered [Unauthenticated], and the store
    holds no session afterwards; the transport has received that one
    call, with the token as bearer. *)
Theorem authorization_failure_clears_session
    (transport : Outgoing -> Wire) (auth_failure success : Z -> bool)
    (r : RequestSpec) (c : Client) (s : Session) (status : Z) (body : value) :
  authorized r = true ->
  SessionStore.get c = Some s ->
  transport {| spec := r; bearer := Some (token s) |} = Answer status body ->
  auth_failure status = true ->
  fst (send transport auth_failure success r c) = inr Unauthenticated /\
  SessionStore.get (snd (send transport auth_failure success r c)) = None /\
  calls (snd (send transport auth_failure success r c)) =
    calls c ++ [{| spec := r; bearer := Some (token s) |}].
Proof.
  intros Hauth Hsome Hanswer Hfail.
  unfold send, call. rewrite Hauth, Hsome, Hanswer, Hfail.
  repeat split.
Qed.

Lemma authorization_failure_clears_session_witness :
  fst (send refusing is_401 is_2xx chat_spec stale_session) =
    inr Unauthenticated /\
  SessionStore.get (snd (send refusing is_401 is_2xx chat_spec stale_session)) =
    None /\
  calls (snd (send refusing is_401 is_2xx chat_spec stale_session)) =
    calls stale_session ++
    [{| spec := chat_spec;
        bearer := Some (token {| token := "tok123"; issuedAt := 0 |}) |}].
Proof.
  apply (authorization_failure_clears_session refusing is_401 is_2xx
           chat_spec stale_session {| token := "tok123"; issuedAt := 0 |}
           401%Z VNull); reflexivity.
Defined.

End DispatcherFacts.

(** * More on the pages: failures, odd answers, sequences *)

Module LoginEdges.
Import Login.

(** [login], case by case. *)
Lemma login_cases (API : Axios) (s : State) (w : World) :
  login API s w =
  match settle API (login_request s) w with
  | (Normal res, store) =>
      match JS.Get (data res) "access_token" with
      | Normal v =>
          match ToString v with
          | Normal text =>
              (Normal tt, s,
               {| localStorage := <["token" := text]> store;
                  effects := (effects w ++ [Requested (login_request s)]) ++
                             [Navigate "/chat"] |})
          | Throw _ =>
              (Normal tt, s,
               {| localStorage := store;
                  effects := (effects w ++ [Requested (login_request s)]) ++
                             [Alert "Login failed"] |})
          end
      | Throw _ =>
          (Normal tt, s,
           {| localStorage := store;
              effects := (effects w ++ [Requested (login_request s)]) ++
                         [Alert "Login failed"] |})
      end
  | (Throw _, store) =>
      (Normal tt, s,
       {| localStorage := store;
          effects := (effects w ++ [Requested (login_request s)]) ++
                     [Alert "Login failed"] |})
  end.
Proof.
  run_page. unfold login_request; simpl.
  destruct (settle API _ w) as [[res|e] store]; simpl; [|reflexivity].
  destruct (JS.Get (data res) "access_token") as [v|e]; simpl; [|reflexivity].
  destruct (ToString v); reflexivity.
Qed.

(** X1.  [login] never throws and never changes the two cells.  It
    hands axios one request, and then does one of two things: it stores
    a token and moves to [/chat] without an alert, or it alerts
    [Login failed], stays where it is and writes nothing (the storage is
    the one the call left). *)
Theorem login_settles (API : Axios) (s : State) (w : World) :
  exists w' : World,
    login API s w = (Normal tt, s, w') /\
    requests w' = requests w ++ [login_request s] /\
    ((navigations w' = navigations w ++ ["/chat"] /\
      alerts w' = alerts w /\
      exists (v : value) (text : string),
        ToString v = Normal text /\
        localStorage w' =
        <["token" := text]> (snd (settle API (login_request s) w)))
     \/
     (navigations w' = navigations w /\
      alerts w' = alerts w ++ ["Login failed"] /\
      localStorage w' = snd (settle API (login_request s) w))).
Proof.
  rewrite login_cases.
  destruct (settle API _ w) as [[res|e] store]; simpl.
  - destruct (JS.Get (data res) "access_token") as [v|e];
      [destruct (ToString v) as [text|e] eqn:Htext|].
    + eexists; split; [reflexivity|]. split; [read_effects; reflexivity|].
      left. read_effects. repeat split. exists v, text. split; [exact Htext|].
      reflexivity.
    + eexists; split; [reflexivity|]. split; [read_effects; reflexivity|].
      right. read_effects. repeat split.
    + eexists; split; [reflexivity|]. split; [read_effects; reflexivity|].
      right. read_effects. repeat split.
  - eexists; split; [reflexivity|]. split; [read_effects; reflexivity|].
    right. read_effects. repeat split.
Qed.

(** X2.  A call that resolves with no data ([null] or [undefined], an
    empty answer) is a failed login all the same: reading the token
    throws, the page alerts [Login failed], does not move, and stores
    nothing. *)
Theorem login_reports_empty_answer
    (API : Axios) (s : State) (w : World) (res : Response) (store : Storage) :
  settle API (login_request s) w = (Normal res, store) ->
  data res = VNull \/ data res = VUndefined ->
  exists w' : World,
    login API s w = (Normal tt, s, w') /\
    localStorage w' = store /\
    navigations w' = navigations w /\
    alerts w' = alerts w ++ ["Login failed"].
Proof.
  intros Hsettle Hdata. rewrite login_cases, Hsettle.
  assert (Hget : JS.Get (data res) "access_token" = Throw TypeError)
    by (destruct Hdata as [-> | ->]; reflexivity).
  rewrite Hget. eexists; split; [reflexivity|].
  read_effects. repeat split.
Qed.

Lemma login_reports_empty_answer_witness :
  exists w' : World,
    login (scripted [Normal {| status := 204; data := VUndefined |}])
      {| username := "alice"; password := "pw" |} logged_in_world =
    (Normal tt, {| username := "alice"; password := "pw" |}, w') /\
    localStorage w' = localStorage logged_in_world /\
    navigations w' = navigations logged_in_world /\
    alerts w' = alerts logged_in_world ++ ["Login failed"].
Proof.
  apply (login_reports_empty_answer
           (scripted [Normal {| status := 204; data := VUndefined |}])
           {| username := "alice"; password := "pw" |} logged_in_world
           {| status := 204; data := VUndefined |}
           (localStorage logged_in_world));
    [reflexivity | right; reflexivity].
Defined.

(** X3.  A call that resolves with data that has no [access_token] is
    taken for a login: the text [undefined] is stored as the token and
    the page moves to [/chat], without an alert. *)
Theorem login_stores_undefined
    (API : Axios) (s : State) (w : World) (res : Response) (store : Storage) :
  settle API (login_request s) w = (Normal res, store) ->
  lacks "access_token" (data res) ->
  exists w' : World,
    login API s w = (Normal tt, s, w') /\
    localStorage w' = <["token" := "undefined"]> store /\
    navigations w' = navigations w ++ ["/chat"] /\
    alerts w' = alerts w.
Proof.
  intros Hsettle Hdata. rewrite login_cases, Hsettle.
  assert (Hget : JS.Get (data res) "access_token" = Normal VUndefined).
  { destruct (data res); simpl in *; try reflexivity; try contradiction.
    rewrite Hdata. reflexivity. }
  rewrite Hget. eexists; split; [reflexivity|].
  read_effects. repeat split.
Qed.

Lemma login_stores_undefined_witness :
  exists w' : World,
    login (scripted [Normal {| status := 200;
                               data := VObj [("detail", VStr "ok")] |}])
      {| username := "alice"; password := "pw" |} empty_world =
    (Normal tt, {| username := "alice"; password := "pw" |}, w') /\
    localStorage w' = <["token" := "undefined"]> (localStorage empty_world) /\
    navigations w' = navigations empty_world ++ ["/chat"] /\
    alerts w' = alerts empty_world.
Proof.
  apply (login_stores_undefined
           (scripted [Normal {| status := 200;
                                data := VObj [("detail", VStr "ok")] |}])
           {| username := "alice"; password := "pw" |} empty_world
           {| status := 200; data := VObj [("detail", VStr "ok")] |}
           (localStorage empty_world)); reflexivity.
Defined.

(** X4.  Logging in a second time puts the new token in the place of
    the old one: with calls that leave the storage alone, the storage
    after the second login is the storage before the first with the
    second token under [token], and nothing of the first token is
    left. *)
Theorem relogin_replaces_token
    (API : Axios) (s1 s2 : State) (w w1 : World)
    (res1 res2 : Response) (t1 t2 : string) :
  settle API (login_request s1) w = (Normal res1, localStorage w) ->
  JS.Get (data res1) "access_token" = Normal (VStr t1) ->
  login API s1 w = (Normal tt, s1, w1) ->
  settle API (login_request s2) w1 = (Normal res2, localStorage w1) ->
  JS.Get (data res2) "access_token" = Normal (VStr t2) ->
  exists w2 : World,
    login API s2 w1 = (Normal tt, s2, w2) /\
    localStorage w1 !! "token" = Some t1 /\
    localStorage w2 = <["token" := t2]> (localStorage w) /\
    localStorage w2 !! "token" = Some t2.
Proof.
  intros Hsettle1 Hget1 Hlogin1 Hsettle2 Hget2.
  rewrite login_cases, Hsettle1, Hget1 in Hlogin1. simpl in Hlogin1.
  injection Hlogin1 as <-.
  rewrite login_cases, Hsettle2, Hget2. simpl.
  eexists; split; [reflexivity|]. simpl.
  split; [apply lookup_insert_eq|].
  split; [apply insert_insert_eq | apply lookup_insert_eq].
Qed.

Lemma relogin_replaces_token_witness :
  exists w2 : World,
    login two_logins {| username := "bob"; password := "pw" |}
      (snd (login two_logins {| username := "alice"; password := "pw" |}
              logged_in_world)) =
    (Normal tt, {| username := "bob"; password := "pw" |}, w2) /\
    localStorage
      (snd (login two_logins {| username := "alice"; password := "pw" |}
              logged_in_world)) !! "token" = Some "first" /\
    localStorage w2 = <["token" := "second"]> (localStorage logged_in_world) /\
    localStorage w2 !! "token" = Some "second".
Proof.
  apply (relogin_replaces_token two_logins
           {| username := "alice"; password := "pw" |}
           {| username := "bob"; password := "pw" |}
           logged_in_world
           (snd (login two_logins {| username := "alice"; password := "pw" |}
                   logged_in_world))
           {| status := 200; data := VObj [("access_token", VStr "first")] |}
           {| status := 200; data := VObj [("access_token", VStr "second")] |}
           "first" "second"); reflexivity.
Defined.

(** X18.  A call that resolves with an [access_token] that cannot be
    written as a string (an object with a field [toString], or a list
    with such an object in it) is a failed login: [setItem] throws
    inside the [try], the page alerts [Login failed], does not move, and
    stores nothing. *)
Theorem login_reports_unwritable_token
    (API : Axios) (s : State) (w : World) (res : Response) (store : Storage)
    (v : value) (e : error) :
  settle API (login_request s) w = (Normal res, store) ->
  JS.Get (data res) "access_token" = Normal v ->
  ToString v = Throw e ->
  exists w' : World,
    login API s w = (Normal tt, s, w') /\
    localStorage w' = store /\
    navigations w' = navigations w /\
    alerts w' = alerts w ++ ["Login failed"].
Proof.
  intros Hsettle Hget Htext. rewrite login_cases, Hsettle, Hget, Htext.
  eexists; split; [reflexivity|]. read_effects. repeat split.
Qed.

Lemma login_reports_unwritable_token_witness :
  exists w' : World,
    login (scripted [Normal {| status := 200;
                               data := VObj [("access_token",
                                              VArr [VNum "1";
                                                    VObj [("toString",
                                                           VNull)]])] |}])
      {| username := "alice"; password := "pw" |} logged_in_world =
    (Normal tt, {| username := "alice"; password := "pw" |}, w') /\
    localStorage w' = localStorage logged_in_world /\
    navigations w' = navigations logged_in_world /\
    alerts w' = alerts logged_in_world ++ ["Login failed"].
Proof.
  apply (login_reports_unwritable_token
           (scripted [Normal {| status := 200;
                                data := VObj [("access_token",
                                               VArr [VNum "1";
                                                     VObj [("toString",
                                                            VNull)]])] |}])
           {| username := "alice"; password := "pw" |} logged_in_world
           {| status := 200;
              data := VObj [("access_token",
                             VArr [VNum "1"; VObj [("toString", VNull)]])] |}
           (localStorage logged_in_world)
           (VArr [VNum "1"; VObj [("toString", VNull)]]) TypeError);
    reflexivity.
Defined.

End LoginEdges.

Module SignupEdges.
Import Signup.

(** X5.  [signup] never throws, never changes the two cells and never
    writes the storage, which is left as the call left it.  It hands
    axios one request and alerts once: [Signup success], with a move to
    [/], when the call resolves, whatever the answer holds;
    [Signup failed], with no move, when it is rejected. *)
Theorem signup_settles (API : Axios) (s : State) (w : World) :
  exists w' : World,
    signup API s w = (Normal tt, s, w') /\
    localStorage w' = snd (settle API (signup_request s) w) /\
    requests w' = requests w ++ [signup_request s] /\
    alerts w' =
      alerts w ++
      [match fst (settle API (signup_request s) w) with
       | Normal _ => "Signup success"
       | Throw _ => "Signup failed"
       end] /\
    navigations w' =
      navigations w ++
      match fst (settle API (signup_request s) w) with
      | Normal _ => ["/"]
      | Throw _ => []
      end.
Proof.
  run_page. unfold signup_request; simpl.
  destruct (settle API _ w) as [[res|e] store]; simpl;
    (eexists; split; [reflexivity|]); read_effects; repeat split.
Qed.

End SignupEdges.

Module ChatEdges.
Import Chat ChatFacts.

(** X6.  [send] catches nothing: when axios rejects the call, [send]
    throws the very error of the rejection; the cells are as they were,
    and the page neither alerts nor moves. *)
Theorem send_rethrows
    (API : Axios) (c : State) (w : World) (e : error) (store : Storage) :
  settle API (send_request c) w = (Throw e, store) ->
  exists w' : World,
    send API c w = (Throw e, c, w') /\
    localStorage w' = store /\
    alerts w' = alerts w /\
    navigations w' = navigations w.
Proof.
  intros Hsettle. rewrite send_cases, Hsettle.
  exists (sent c w store). split; [reflexivity|].
  rewrite alerts_sent, navigations_sent. repeat split.
Qed.

Lemma send_rethrows_witness :
  exists w' : World,
    send (scripted [Throw (BadStatus 500 (VStr "boom"))])
      {| msg := "hi"; reply := VStr "earlier" |} empty_world =
    (Throw (BadStatus 500 (VStr "boom")),
     {| msg := "hi"; reply := VStr "earlier" |}, w') /\
    localStorage w' = localStorage empty_world /\
    alerts w' = alerts empty_world /\
    navigations w' = navigations empty_world.
Proof.
  apply (send_rethrows (scripted [Throw (BadStatus 500 (VStr "boom"))])
           {| msg := "hi"; reply := VStr "earlier" |} empty_world
           (BadStatus 500 (VStr "boom")) (localStorage empty_world)).
  reflexivity.
Defined.

(** X7.  When the call resolves with no data ([null] or [undefined]),
    [send] throws a TypeError after the request has gone: the reply on
    display stays, and nothing tells the user. *)
Theorem send_throws_on_empty_answer
    (API : Axios) (c : State) (w : World) (res : Response) (store : Storage) :
  settle API (send_request c) w = (Normal res, store) ->
  data res = VNull \/ data res = VUndefined ->
  exists w' : World,
    send API c w = (Throw TypeError, c, w') /\
    requests w' = requests w ++ [send_request c] /\
    alerts w' = alerts w.
Proof.
  intros Hsettle Hdata. rewrite send_cases, Hsettle.
  assert (Hget : JS.Get (data res) "bot_reply" = Throw TypeError)
    by (destruct Hdata as [-> | ->]; reflexivity).
  rewrite Hget. exists (sent c w store). split; [reflexivity|].
  rewrite requests_sent, alerts_sent. split; reflexivity.
Qed.

Lemma send_throws_on_empty_answer_witness :
  exists w' : World,
    send (scripted [Normal {| status := 200; data := VNull |}])
      {| msg := "hi"; reply := VStr "earlier" |} empty_world =
    (Throw TypeError, {| msg := "hi"; reply := VStr "earlier" |}, w') /\
    requests w' =
      requests empty_world ++
      [send_request {| msg := "hi"; reply := VStr "earlier" |}] /\
    alerts w' = alerts empty_world.
Proof.
  apply (send_throws_on_empty_answer
           (scripted [Normal {| status := 200; data := VNull |}])
           {| msg := "hi"; reply := VStr "earlier" |} empty_world
           {| status := 200; data := VNull |} (localStorage empty_world));
    [reflexivity | left; reflexivity].
Defined.

(** X8.  When the call resolves with data that has no [bot_reply],
    [send] ends normally and the reply on display is replaced by
    [undefined]: the earlier reply is lost. *)
Theorem send_loses_reply
    (API : Axios) (c : State) (w : World) (res : Response) (store : Storage) :
  settle API (send_request c) w = (Normal res, store) ->
  lacks "bot_reply" (data res) ->
  exists w' : World,
    send API c w = (Normal tt, {| msg := msg c; reply := VUndefined |}, w').
Proof.
  intros Hsettle Hdata. rewrite send_cases, Hsettle.
  assert (Hget : JS.Get (data res) "bot_reply" = Normal VUndefined).
  { destruct (data res); simpl in *; try reflexivity; try contradiction.
    rewrite Hdata. reflexivity. }
  rewrite Hget. eexists. reflexivity.
Qed.

Lemma send_loses_reply_witness :
  exists w' : World,
    send (scripted [Normal {| status := 200;
                              data := VObj [("reply", VStr "hello")] |}])
      {| msg := "hi"; reply := VStr "earlier" |} empty_world =
    (Normal tt, {| msg := "hi"; reply := VUndefined |}, w').
Proof.
  apply (send_loses_reply
           (scripted [Normal {| status := 200;
                                data := VObj [("reply", VStr "hello")] |}])
           {| msg := "hi"; reply := VStr "earlier" |} empty_world
           {| status := 200; data := VObj [("reply", VStr "hello")] |}
           (localStorage empty_world)); reflexivity.
Defined.

Lemma send_msg (API : Axios) (c : State) (w : World) :
  msg (snd (fst (send API c w))) = msg c.
Proof.
  rewrite send_cases.
  destruct (settle API _ w) as [[res|e] store]; simpl;
    [destruct (JS.Get (data res) "bot_reply")|]; reflexivity.
Qed.

Lemma send_quiet (API : Axios) (c : State) (w : World) :
  alerts (snd (send API c w)) = alerts w /\
  navigations (snd (send API c w)) = navigations w.
Proof.
  rewrite send_cases.
  destruct (settle API _ w) as [[res|e] store]; simpl;
    [destruct (JS.Get (data res) "bot_reply")|]; simpl;
    rewrite alerts_sent, navigations_sent; split; reflexivity.
Qed.

(** X9.  Whatever the server does, on the chat page every click of the
    button hands axios one request, with the text that is in the input
    at that moment, and nothing else does: no click is held back (an
    empty text is sent like any other), none is repeated after a
    failure.  The text of the input is the last one typed, which no send
    clears; and the page never alerts and never moves. *)
Theorem chat_run_requests (API : Axios) (events : list Event) :
  forall (c : State) (w : World),
    requests (snd (run API events c w)) =
      requests w ++ map chat_request (clicked_texts events (msg c)) /\
    msg (fst (run API events c w)) = input_text events (msg c) /\
    alerts (snd (run API events c w)) = alerts w /\
    navigations (snd (run API events c w)) = navigations w.
Proof.
  induction events as [|[text|] rest IH]; intros c w.
  - simpl. rewrite app_nil_r. repeat split.
  - simpl. apply (IH (setMsg text c) w).
  - simpl.
    pose proof (send_requests API c w) as Hreq.
    pose proof (send_msg API c w) as Hmsg.
    pose proof (send_quiet API c w) as [Hal Hnav].
    destruct (send API c w) as [[r c1] w1]. simpl in Hreq, Hmsg, Hal, Hnav.
    destruct (IH c1 w1) as (IH1 & IH2 & IH3 & IH4).
    rewrite IH1, IH2, IH3, IH4, Hreq, Hmsg, Hal, Hnav.
    rewrite <- app_assoc. repeat split.
Qed.

Lemma send_storage (API : Axios) (c : State) (w : World) :
  localStorage (snd (send API c w)) = snd (settle API (send_request c) w).
Proof.
  rewrite send_cases.
  destruct (settle API _ w) as [[res|e] store]; simpl;
    [destruct (JS.Get (data res) "bot_reply")|]; reflexivity.
Qed.

(** X17.  The chat page itself never writes the storage: with an axios
    instance whose calls leave the storage as they find it, the storage
    after any typing and clicking is the storage before; a token that
    is there stays, failed sends or not. *)
Theorem chat_run_keeps_storage (API : Axios) (events : list Event) :
  (forall (r : HttpRequest) (w0 : World),
      snd (settle API r w0) = localStorage w0) ->
  forall (c : State) (w : World),
    localStorage (snd (run API events c w)) = localStorage w.
Proof.
  intros Hframe.
  induction events as [|[text|] rest IH]; intros c w.
  - reflexivity.
  - simpl. apply IH.
  - simpl. pose proof (send_storage API c w) as Hsend.
    destruct (send API c w) as [[r c1] w1]. simpl in Hsend.
    rewrite IH, Hsend. apply Hframe.
Qed.

Lemma chat_run_keeps_storage_witness :
  localStorage
    (snd (run two_answers [Typed "a"; Clicked; Clicked; Clicked]
            initial logged_in_world)) =
  localStorage logged_in_world.
Proof.
  exact (chat_run_keeps_storage two_answers
           [Typed "a"; Clicked; Clicked; Clicked]
           (fun r w0 => eq_refl) initial logged_in_world).
Defined.

End ChatEdges.

Module AppFacts.

(** X10.  The pages move only to paths that are routes of [App]:
    wherever [login] navigates is the route of the chat page, wherever
    [signup] navigates is the route of the login page, and [send]
    navigates nowhere. *)
Theorem navigation_lands (API : Axios) (w : World) :
  (forall s : Login.State,
      exists new : list string,
        navigations (snd (Login.login API s w)) = navigations w ++ new /\
        Forall (fun to => App.element to = Some App.ChatPage) new) /\
  (forall s : Signup.State,
      exists new : list string,
        navigations (snd (Signup.signup API s w)) = navigations w ++ new /\
        Forall (fun to => App.element to = Some App.LoginPage) new) /\
  (forall c : Chat.State,
      navigations (snd (Chat.send API c w)) = navigations w).
Proof.
  split; [|split].
  - intros s. rewrite LoginEdges.login_cases.
    destruct (settle API _ w) as [[res|e] store]; simpl.
    + destruct (JS.Get (data res) "access_token") as [v|e];
        [destruct (ToString v)|].
      * exists ["/chat"]. split; [read_effects; reflexivity|].
        repeat constructor.
      * exists []. split; [read_effects; reflexivity | constructor].
      * exists []. split; [read_effects; reflexivity | constructor].
    + exists []. split; [read_effects; reflexivity | constructor].
  - intros s. run_page.
    destruct (settle API _ w) as [[res|e] store]; simpl.
    + exists ["/"]. split; [read_effects; reflexivity|]. repeat constructor.
    + exists []. split; [read_effects; reflexivity | constructor].
  - intros c. apply ChatEdges.send_quiet.
Qed.

End AppFacts.

Module HelperFacts.
Import chatApi.

(** What a helper gives its caller: the outcome of axios as it is, the
    cells of the caller as they were, and the world with the request
    handed over. *)
Lemma request_passes {σ : Type} (api : Axios) (r : HttpRequest)
    (st : σ) (w : World) :
  request api r st w =
  (fst (settle api r w), st,
   {| localStorage := snd (settle api r w);
      effects := effects w ++ [Requested r] |}).
Proof. unfold request. destruct (settle api r w); reflexivity. Qed.

(** X11.  The helpers of the api folder catch nothing and keep nothing:
    each hands axios one request and gives its caller the outcome of
    axios, a rejection as well as a response.  [getHistory] asks
    [/chat/history] with GET and sends nothing of the caller.  With the
    two credentials as texts, [loginUser] hands over the very request of
    the login page, and [sendMessage] with a text the very request of
    the chat page. *)
Theorem helpers_pass_through
    {σ : Type} (api : Axios) (st : σ) (w : World) :
  (fst (getHistory api st w) =
     (fst (settle api {| method := GET; url := "/chat/history";
                         body := NoBody; params := [] |} w), st) /\
   requests (snd (getHistory api st w)) =
     requests w ++ [{| method := GET; url := "/chat/history";
                       body := NoBody; params := [] |}]) /\
  (forall u p : string,
      let s := {| Login.username := u; Login.password := p |} in
      let data := [("username", VStr u); ("password", VStr p)] in
      fst (loginUser api data st w) =
        (fst (settle api (Login.login_request s) w), st) /\
      requests (snd (loginUser api data st w)) =
        requests (snd (Login.login api s w))) /\
  (forall (m : string) (r : value),
      let c := {| Chat.msg := m; Chat.reply := r |} in
      fst (sendMessage api (VStr m) st w) =
        (fst (settle api (Chat.send_request c) w), st) /\
      requests (snd (sendMessage api (VStr m) st w)) =
        requests (snd (Chat.send api c w))) /\
  (forall data : list (string * value),
      fst (signupUser api data st w) =
        (fst (settle api {| method := POST; url := "/signup";
                            body := NoBody; params := data |} w), st)).
Proof.
  split; [|split; [|split]].
  - unfold getHistory, get_. rewrite request_passes. simpl.
    split; [reflexivity|]. read_effects. reflexivity.
  - intros u p s data.
    rewrite (WireFacts.loginUser_converted api data
               [("username", u); ("password", p)] st w eq_refl).
    rewrite request_passes.
    simpl. split; [reflexivity|].
    rewrite WireFacts.login_requests. read_effects. reflexivity.
  - intros m r c. unfold sendMessage, post. rewrite request_passes.
    simpl. split; [reflexivity|].
    rewrite ChatFacts.send_requests. read_effects. reflexivity.
  - intros data. unfold signupUser, post. rewrite request_passes.
    reflexivity.
Qed.

End HelperFacts.

Module QueryFacts.
Import URL URLFacts.
Local Open Scope string_scope.

Lemma URLSearchParams_of_throws (data : list (string * value))
    (name : string) (v : value) (e : error) :
  In (name, v) data ->
  ToString v = Throw e ->
  exists e' : error, chatApi.URLSearchParams_of data = Throw e'.
Proof.
  induction data as [|[k x] rest IH]; intros Hin Hthrow; [contradiction|].
  simpl. destruct Hin as [Heq | Hin].
  - injection Heq as -> ->. rewrite Hthrow. eauto.
  - destruct (ToString x); [|eauto].
    destruct (IH Hin Hthrow) as [e' ->]. eauto.
Qed.

Lemma URLSearchParams_of_fields (data : list (string * value)) :
  forall form : URLSearchParams,
    chatApi.URLSearchParams_of data = Normal form ->
    Forall2 (fun field pair =>
               fst pair = fst field /\ ToString (snd field) = Normal (snd pair))
            data form.
Proof.
  induction data as [|[k x] rest IH]; simpl; intros form Hform.
  - injection Hform as <-. constructor.
  - destruct (ToString x) as [text|e] eqn:Htext; [|discriminate].
    destruct (chatApi.URLSearchParams_of rest) as [form'|e]; [|discriminate].
    injection Hform as <-. constructor; [split; [reflexivity | exact Htext]|].
    apply IH. reflexivity.
Qed.

(** X13.  [loginUser] builds its form before it calls axios.  When a
    value of [data] cannot be written as a string, the constructor of
    the form throws and [loginUser] throws with it: axios is handed
    nothing and the world is as it was.  When every value can, axios is
    handed one request whose form has the fields of [data], in order,
    each with its value as a string, and the form is read back by the
    server as those pairs whatever their text. *)
Theorem loginUser_form {σ : Type} (api : Axios)
    (data : list (string * value)) (st : σ) (w : World) :
  (forall (name : string) (v : value) (e : error),
      In (name, v) data ->
      ToString v = Throw e ->
      exists e' : error,
        chatApi.loginUser api data st w = (Throw e', st, w)) /\
  (forall form : URLSearchParams,
      chatApi.URLSearchParams_of data = Normal form ->
      requests (snd (chatApi.loginUser api data st w)) =
        (requests w ++
         [{| method := POST; url := "/login"; body := FormBody form;
             params := [] |}])%list /\
      Forall2 (fun field pair =>
                 fst pair = fst field /\
                 ToString (snd field) = Normal (snd pair))
              data form /\
      parse (serialize form) = form).
Proof.
  split.
  - intros name v e Hin Hthrow.
    destruct (URLSearchParams_of_throws data name v e Hin Hthrow) as [e' He'].
    exists e'. unfold chatApi.loginUser, bind, lift. rewrite He'. reflexivity.
  - intros form Hform.
    rewrite (WireFacts.loginUser_converted api data form st w Hform).
    split; [apply WireFacts.request_requests|].
    split; [apply URLSearchParams_of_fields, Hform | apply parse_serialize].
Qed.

Lemma loginUser_form_witness :
  exists e' : error,
    chatApi.loginUser unreachable
      [("username", VStr "alice");
       ("password", VObj [("toString", VStr "x")])] tt empty_world =
    (Throw e', tt, empty_world).
Proof.
  exact (proj1 (loginUser_form unreachable
                  [("username", VStr "alice");
                   ("password", VObj [("toString", VStr "x")])]
                  tt empty_world)
           "password" (VObj [("toString", VStr "x")]) TypeError
           (or_intror (or_introl eq_refl)) eq_refl).
Defined.

(** X14.  A [#] in the username keeps the password in the browser: the
    query of the URL of [signup] is the same whatever the password
    is. *)
Theorem signup_hash_drops_password (s : Signup.State) (other : string) :
  absent "#" (Signup.username s) = false ->
  query (Signup.signup_url s) =
  query (Signup.signup_url
           {| Signup.username := Signup.username s;
              Signup.password := other |}).
Proof.
  intros Hhash. rewrite !signup_query_trimmed.
  simpl Signup.username. simpl Signup.password.
  apply query_in_hash.
  rewrite without_breaks_absent by reflexivity. exact Hhash.
Qed.

Lemma signup_hash_drops_password_witness :
  query (Signup.signup_url
           {| Signup.username := "a#b"; Signup.password := "secret" |}) =
  query (Signup.signup_url
           {| Signup.username := "a#b"; Signup.password := "other" |}).
Proof.
  exact (signup_hash_drops_password
           {| Signup.username := "a#b"; Signup.password := "secret" |}
           "other" eq_refl).
Defined.

(** The query of [signup] when neither text has an [&] or a [#]. *)
Lemma signup_query_pieces (u p : string) :
  absent "&" u = true -> absent "#" u = true ->
  absent "&" p = true -> absent "#" p = true ->
  parse (query (Signup.signup_url
                  {| Signup.username := u; Signup.password := p |})) =
  [("username", decode (without_breaks u));
   ("password", decode (without_breaks (strip_trailing p)))].
Proof.
  intros Hu1 Hu2 Hp1 Hp2. rewrite signup_query_trimmed.
  simpl Signup.username. simpl Signup.password.
  apply query_in_pieces.
  - rewrite without_breaks_absent by reflexivity. exact Hu1.
  - rewrite without_breaks_absent by reflexivity. exact Hu2.
  - rewrite without_breaks_absent, strip_trailing_absent by reflexivity.
    exact Hp1.
  - rewrite without_breaks_absent, strip_trailing_absent by reflexivity.
    exact Hp2.
Qed.

(** X15.  When neither the username nor the password has an [&], a
    [#], a [+] or a [%], the server is sent two parameters, [username]
    and [password], and reads the two texts as they were typed but for
    what the URL parser drops: every tab and newline, and the blanks at
    the end of the password. *)
Theorem signup_reads_trimmed (s : Signup.State) :
  absent "&" (Signup.username s) = true ->
  absent "#" (Signup.username s) = true ->
  absent "+" (Signup.username s) = true ->
  absent "%" (Signup.username s) = true ->
  absent "&" (Signup.password s) = true ->
  absent "#" (Signup.password s) = true ->
  absent "+" (Signup.password s) = true ->
  absent "%" (Signup.password s) = true ->
  parse (query (Signup.signup_url s)) =
  [("username", without_breaks (Signup.username s));
   ("password", without_breaks (strip_trailing (Signup.password s)))].
Proof.
  destruct s as [u p]. simpl Signup.username. simpl Signup.password.
  intros Hu1 Hu2 Hu3 Hu4 Hp1 Hp2 Hp3 Hp4.
  rewrite signup_query_pieces by assumption.
  rewrite !decode_without_escapes; [reflexivity | | | |].
  - rewrite without_breaks_absent, strip_trailing_absent by reflexivity.
    exact Hp3.
  - rewrite without_breaks_absent, strip_trailing_absent by reflexivity.
    exact Hp4.
  - rewrite without_breaks_absent by reflexivity. exact Hu3.
  - rewrite without_breaks_absent by reflexivity. exact Hu4.
Qed.

Lemma signup_reads_trimmed_witness :
  parse (query (Signup.signup_url
                  {| Signup.username := "alice smith";
                     Signup.password := "pw " |})) =
  [("username", without_breaks "alice smith");
   ("password", without_breaks (strip_trailing "pw "))].
Proof.
  exact (signup_reads_trimmed
           {| Signup.username := "alice smith"; Signup.password := "pw " |}
           eq_refl eq_refl eq_refl eq_refl eq_refl eq_refl eq_refl eq_refl).
Defined.

(** A text that decodes to itself has no [+]. *)
Lemma decode_fixed_bounded (n : nat) :
  forall s : string,
    String.length s <= n -> decode s = s -> absent "+" s = true.
Proof.
  induction n as [|n IH]; intros s Hn Hfix.
  - destruct s; [reflexivity | simpl in Hn; lia].
  - destruct s as [|c rest]; [reflexivity|].
    simpl in Hn. simpl absent. simpl decode in Hfix.
    destruct (Ascii.eqb c "+") eqn:Hplus.
    + apply Ascii.eqb_eq in Hplus. subst c. discriminate Hfix.
    + simpl.
      assert (Hstep : String c (decode rest) = String c rest ->
                      absent "+" rest = true).
      { intros H. injection H as H. apply IH; [lia | exact H]. }
      destruct (Ascii.eqb c "%"); [|exact (Hstep Hfix)].
      destruct rest as [|h [|l rest']]; try exact (Hstep Hfix).
      destruct (hex_value h); [|exact (Hstep Hfix)].
      destruct (hex_value l); [|exact (Hstep Hfix)].
      injection Hfix as _ Hfix.
      pose proof (decode_length rest') as Hlen.
      rewrite Hfix in Hlen. simpl in Hlen. lia.
Qed.

Lemma decode_fixed (s : string) : decode s = s -> absent "+" s = true.
Proof. apply (decode_fixed_bounded (String.length s)). lia. Qed.

(** X16.  A [+] in the username or in the password does not reach the
    server: when neither text has an [&] or a [#] and one of them has a
    [+], what the server reads is not what was typed. *)
Theorem signup_plus_misread (s : Signup.State) :
  absent "&" (Signup.username s) = true ->
  absent "#" (Signup.username s) = true ->
  absent "&" (Signup.password s) = true ->
  absent "#" (Signup.password s) = true ->
  absent "+" (Signup.username s) = false \/
  absent "+" (Signup.password s) = false ->
  parse (query (Signup.signup_url s)) <>
  [("username", Signup.username s); ("password", Signup.password s)].
Proof.
  destruct s as [u p]. simpl Signup.username. simpl Signup.password.
  intros Hu1 Hu2 Hp1 Hp2 Hplus.
  rewrite signup_query_pieces by assumption.
  intros Heq. injection Heq as Hu Hp.
  assert (Hu' : decode u = u).
  { pose proof (decode_length (without_breaks u)) as H1.
    rewrite Hu in H1.
    rewrite (without_breaks_same u H1) in Hu. exact Hu. }
  assert (Hp' : decode p = p).
  { pose proof (decode_length (without_breaks (strip_trailing p))) as H1.
    pose proof (without_breaks_length (strip_trailing p)) as H2.
    pose proof (strip_trailing_length p) as H3.
    rewrite Hp in H1.
    assert (Hs : strip_trailing p = p) by (apply strip_trailing_same; lia).
    rewrite Hs in Hp, H1.
    rewrite (without_breaks_same p H1) in Hp. exact Hp. }
  apply decode_fixed in Hu', Hp'. destruct Hplus; congruence.
Qed.

Lemma signup_plus_misread_witness :
  parse (query (Signup.signup_url
                  {| Signup.username := "alice"; Signup.password := "1+1=2" |})) <>
  [("username", "alice"); ("password", "1+1=2")].
Proof.
  exact (signup_plus_misread
           {| Signup.username := "alice"; Signup.password := "1+1=2" |}
           eq_refl eq_refl eq_refl eq_refl (or_intror eq_refl)).
Defined.

End QueryFacts.
